(** * ktool: a shallow embedding of the pod-listing command line

    The development follows the three source files of the package:
    [config.py] (module [Config]), [kube.py] (module [Kube]) and [cli.py]
    (module [Cli]).  Python values of type [Any] (the pod records decoded
    from JSON) are modelled by the type [Py.value]; the built-in operations
    the program applies to them ([dict.get], subscripting, truthiness,
    iteration, [str()], comparison with [0]) are modelled in module [Py] and
    raise the exception Python raises when they are applied to a value of the
    wrong shape. *)

From Stdlib Require Import List String Ascii Bool ZArith Lia Permutation.
From Stdlib Require Import DecimalString.
Import ListNotations.
Set Warnings "-register-all".
Open Scope list_scope.
Open Scope string_scope.

(** ** Exceptions and results *)

Inductive exn : Type :=
| BadParameter (msg : string)      (* typer.BadParameter *)
| Exit (code : Z)                  (* typer.Exit *)
| KubectlError (msg : string)      (* kube.KubectlError *)
| KeyError (key : string)
| TypeError
| AttributeError
| ReError                          (* re.error: the pattern does not compile *)
| JSONDecodeError
| NotRenderableError.              (* rich.errors.NotRenderableError *)

Inductive result (A : Type) : Type :=
| Ok (a : A)
| Raise (e : exn).
Arguments Ok {A} a.
Arguments Raise {A} e.

Definition bind {A B : Type} (m : result A) (k : A -> result B) : result B :=
  match m with
  | Ok a => k a
  | Raise e => Raise e
  end.

Notation "x <- m ;; k" := (bind m (fun x => k))
  (at level 61, m at next level, right associativity).

(** ** Python values and built-ins *)

Module Py.

(** A value as [json.loads] builds it.  Numbers are the integral ones (the
    fields the program reads, such as [exitCode], are integers); a [dict]
    keeps its items in insertion order and [lookup] returns the first
    binding of a key. *)
Inductive value : Type :=
| VNone
| VBool (b : bool)
| VInt (z : Z)
| VStr (s : string)
| VList (l : list value)
| VDict (d : list (string * value)).

Definition dict : Type := list (string * value).

Fixpoint lookup (k : string) (d : dict) : option value :=
  match d with
  | [] => None
  | (k', v) :: d' => if (k' =? k)%string then Some v else lookup k d'
  end.

(** [bool(v)]: what [if v:] and [v or w] test. *)
Definition truthy (v : value) : bool :=
  match v with
  | VNone => false
  | VBool b => b
  | VInt z => negb (z =? 0)%Z
  | VStr s => negb (s =? "")%string
  | VList l => match l with [] => false | _ => true end
  | VDict d => match d with [] => false | _ => true end
  end.

(** [v or w] *)
Definition or_ (v w : value) : value := if truthy v then v else w.

(** [v.get(k, default)]; only a dict has the method. *)
Definition get (v : value) (k : string) (default : value) : result value :=
  match v with
  | VDict d => Ok (match lookup k d with Some x => x | None => default end)
  | _ => Raise AttributeError
  end.

(** [v[k]] for a string [k]. *)
Definition getitem (v : value) (k : string) : result value :=
  match v with
  | VDict d => match lookup k d with Some x => Ok x | None => Raise (KeyError k) end
  | _ => Raise TypeError
  end.

(** The items a [for] loop over [v] visits. *)
Definition iter (v : value) : result (list value) :=
  match v with
  | VList l => Ok l
  | VStr s => Ok (map (fun c => VStr (String c "")) (list_ascii_of_string s))
  | VDict d => Ok (map (fun kv => VStr (fst kv)) d)
  | _ => Raise TypeError
  end.

(** [v != 0]: [False] equals [0], and so does no string or container. *)
Definition ne_zero (v : value) : bool :=
  match v with
  | VInt z => negb (z =? 0)%Z
  | VBool b => b
  | _ => true
  end.

(** [v == s] for a string literal [s]. *)
Definition eq_str (v : value) (s : string) : bool :=
  match v with
  | VStr t => (t =? s)%string
  | _ => false
  end.

Definition str_of_Z (z : Z) : string := NilZero.string_of_int (Z.to_int z).

Definition str_of_nat (n : nat) : string := str_of_Z (Z.of_nat n).

Fixpoint join (sep : string) (l : list string) : string :=
  match l with
  | [] => ""
  | [s] => s
  | s :: l' => s ++ sep ++ join sep l'
  end.

Fixpoint has_char (c : ascii) (s : string) : bool :=
  match s with
  | EmptyString => false
  | String c' s' => (c' =? c)%char || has_char c s'
  end.

Definition dquote : ascii := ascii_of_nat 34.

Definition hex_digit (n : nat) : ascii :=
  match n with
  | 0 => "0" | 1 => "1" | 2 => "2" | 3 => "3" | 4 => "4" | 5 => "5"
  | 6 => "6" | 7 => "7" | 8 => "8" | 9 => "9" | 10 => "a" | 11 => "b"
  | 12 => "c" | 13 => "d" | 14 => "e" | _ => "f"
  end%char.

(** A character of a string stands for the code point of the same number
    (0 to 255).  [printable] is [str.isprintable] on those. *)
Definition printable (n : nat) : bool :=
  ((32 <=? n) && (n <=? 126) || (161 <=? n) && negb (n =? 173))%nat.

Definition repr_char (quote : ascii) (c : ascii) : string :=
  let n := nat_of_ascii c in
  if (c =? quote)%char || (c =? "\")%char then String "\" (String c "")
  else if (n =? 9)%nat then "\t"
  else if (n =? 10)%nat then "\n"
  else if (n =? 13)%nat then "\r"
  else if printable n then String c ""
  else String "\" (String "x" (String (hex_digit (n / 16)) (String (hex_digit (n mod 16)) ""))).

Fixpoint repr_chars (quote : ascii) (s : string) : string :=
  match s with
  | EmptyString => ""
  | String c s' => repr_char quote c ++ repr_chars quote s'
  end.

(** [repr(s)] of a string: single quotes, unless the string has a single
    quote and no double quote. *)
Definition repr_str (s : string) : string :=
  let quote : ascii :=
    if has_char "'" s && negb (has_char dquote s) then dquote else "'"%char in
  String quote (repr_chars quote s ++ String quote "").

Fixpoint repr (v : value) : string :=
  match v with
  | VNone => "None"
  | VBool true => "True"
  | VBool false => "False"
  | VInt z => str_of_Z z
  | VStr s => repr_str s
  | VList l => "[" ++ join ", " (map repr l) ++ "]"
  | VDict d =>
      "{" ++ join ", " (map (fun kv => repr_str (fst kv) ++ ": " ++ repr (snd kv)) d) ++ "}"
  end.

(** [str(v)], which an f-string applies to each field. *)
Definition str (v : value) : string :=
  match v with
  | VStr s => s
  | _ => repr v
  end.

(** [s in t] on strings. *)
Fixpoint contains (s t : string) : bool :=
  prefix s t ||
  match t with
  | EmptyString => false
  | String _ t' => contains s t'
  end.

Definition startswith (a p : string) : bool := prefix p a.

(** [s in v] for a string [s]: a substring test on a string, membership
    in a list, a key test on a dict. *)
Definition str_in (s : string) (v : value) : result bool :=
  match v with
  | VStr t => Ok (contains s t)
  | VList l => Ok (existsb (fun x => eq_str x s) l)
  | VDict d => Ok (match lookup s d with Some _ => true | None => false end)
  | _ => Raise TypeError
  end.

(** Keys of a dict: lists and dicts cannot be hashed; [True] and [1] are
    the same key, and so are [False] and [0]. *)
Definition hashable (v : value) : bool :=
  match v with
  | VList _ | VDict _ => false
  | _ => true
  end.

Definition key_eq (a b : value) : bool :=
  match a, b with
  | VNone, VNone => true
  | VBool x, VBool y => Bool.eqb x y
  | VBool x, VInt z | VInt z, VBool x => (z =? (if x then 1 else 0))%Z
  | VInt x, VInt y => (x =? y)%Z
  | VStr x, VStr y => (x =? y)%string
  | _, _ => false
  end.

End Py.

(** ** config.py *)

Module Config.

Record KToolConfig : Type := {
  default_namespace : string;
  contexts : list (string * string);
  services : list (string * string)
}.

(** What [yaml.safe_load] returns for the file at [CONFIG_PATH], taken to
    be well typed for [KToolConfig]: each of the three keys is absent (or
    null, for the two mappings) or holds a value of the annotated type.
    The empty document is the one with no key. *)
Record yaml_data : Type := {
  y_default_namespace : option string;
  y_contexts : option (list (string * string));
  y_services : option (list (string * string))
}.

(** [d.get(k, default)] on a [dict[str, str]]. *)
Fixpoint get (d : list (string * string)) (k default : string) : string :=
  match d with
  | [] => default
  | (k', v) :: d' => if (k' =? k)%string then v else get d' k default
  end.

Definition from_option {A : Type} (o : option A) (default : A) : A :=
  match o with
  | Some a => a
  | None => default
  end.

(** [load_config()]; the argument is the state of the file: [None] when
    [CONFIG_PATH.exists()] is false. *)
Definition load_config (file : option yaml_data) : KToolConfig :=
  match file with
  | None =>
      {| default_namespace := "default"; contexts := []; services := [] |}
  | Some data =>
      {| default_namespace := from_option (y_default_namespace data) "default";
         contexts := from_option (y_contexts data) [];
         services := from_option (y_services data) [] |}
  end.

End Config.

(** ** kube.py *)

Module Kube.

(** [subprocess.run] with both pipes captured as text. *)
Record completed_process : Type := {
  returncode : Z;
  stdout : string;
  stderr : string
}.

(** [str.isspace] on the code points 0 to 255. *)
Definition isspace (c : ascii) : bool :=
  let n := nat_of_ascii c in
  ((9 <=? n) && (n <=? 13) || (28 <=? n) && (n <=? 32) || (n =? 133) || (n =? 160))%nat.

Fixpoint lstrip (s : string) : string :=
  match s with
  | EmptyString => EmptyString
  | String c s' => if isspace c then lstrip s' else s
  end.

Fixpoint rstrip (s : string) : string :=
  match s with
  | EmptyString => EmptyString
  | String c s' =>
      match rstrip s' with
      | EmptyString => if isspace c then EmptyString else String c EmptyString
      | r => String c r
      end
  end.

Definition strip (s : string) : string := rstrip (lstrip s).

Section Adapter.
(** The external command and the JSON decoder. *)
Variable subprocess_run : list string -> completed_process.
Variable json_loads : string -> result Py.value.

Definition run_kubectl (args : list string) : result string :=
  let p := subprocess_run ("kubectl" :: args) in
  if negb (returncode p =? 0)%Z then Raise (KubectlError (strip (stderr p)))
  else Ok (stdout p).

Definition get_pods_json (namespace : string) : result Py.value :=
  out <- run_kubectl ["get"; "pods"; "-n"; namespace; "-o"; "json"] ;;
  json_loads out.
End Adapter.

End Kube.

(** ** cli.py *)

Module Cli.
Import Config.

(** What the program reads from outside: the configuration file, the
    external command, the decoders and the two libraries it calls. *)
Record world : Type := {
  config_file : option yaml_data;
  subprocess_run : list string -> Kube.completed_process;
  json_loads : string -> result Py.value;
  re_compiles : string -> bool;           (* [re.compile(p)] does not raise *)
  re_matches : string -> string -> bool;  (* [re.search(p, s)] is not [None] *)
  renderable : Py.value -> bool           (* [Table.add_row] takes the cell *)
}.

(** [bool(x)] of an [Optional[str]]. *)
Definition given (x : option string) : bool :=
  match x with
  | Some s => negb (s =? "")%string
  | None => false
  end.

Definition resolve_namespace (w : world) (ns : option string) : string :=
  let cfg := load_config (config_file w) in
  match ns with
  | Some s => if negb (s =? "")%string then s else default_namespace cfg
  | None => default_namespace cfg
  end.

Definition resolve_service (w : world) (tag : option string) : option string :=
  match tag with
  | None => None
  | Some t =>
      if (t =? "")%string then None
      else
        let cfg := load_config (config_file w) in
        Some (Config.get (services cfg) t t)
  end.

(** *** pod_state *)

(** The body of the [for cs in ...] loop: [Some r] when an iteration
    returns [r], [None] when the loop runs to its end. *)
Fixpoint pod_state_loop (css : list Py.value) : result (option (Py.value * bool)) :=
  match css with
  | [] => Ok None
  | cs :: css' =>
      st <- Py.get cs "state" (Py.VDict []) ;;
      let state := Py.or_ st (Py.VDict []) in
      waiting <- Py.get state "waiting" Py.VNone ;;
      terminated <- Py.get state "terminated" Py.VNone ;;
      if Py.truthy waiting then
        reason <- Py.get waiting "reason" (Py.VStr "Waiting") ;;
        Ok (Some (reason, true))
      else if Py.truthy terminated then
        code <- Py.get terminated "exitCode" (Py.VInt 0) ;;
        if Py.ne_zero code then
          reason <- Py.get terminated "reason" (Py.VStr "Exit") ;;
          Ok (Some (Py.VStr (Py.str reason ++ "(exit=" ++ Py.str code ++ ")"), true))
        else pod_state_loop css'
      else pod_state_loop css'
  end.

Definition pod_state (pod : Py.value) : result (Py.value * bool) :=
  status <- Py.get pod "status" (Py.VDict []) ;;
  phase <- Py.get status "phase" (Py.VStr "Unknown") ;;
  cs <- Py.get status "containerStatuses" (Py.VList []) ;;
  css <- Py.iter (Py.or_ cs (Py.VList [])) ;;
  r <- pod_state_loop css ;;
  match r with
  | Some res => Ok res
  | None =>
      let bad := negb (Py.eq_str phase "Running" || Py.eq_str phase "Succeeded") in
      Ok (phase, bad)
  end.

(** *** parse_args *)

(** The six local variables of [parse_args]. *)
Record locals : Type := {
  service : option string;
  namespace : option string;
  search : option string;
  summary : bool;
  bad_only : bool;
  show_command : bool
}.

Definition initial : locals :=
  {| service := None; namespace := None; search := None;
     summary := false; bad_only := false; show_command := false |}.

Definition set_service (v : string) (l : locals) : locals :=
  {| service := Some v; namespace := namespace l; search := search l;
     summary := summary l; bad_only := bad_only l; show_command := show_command l |}.
Definition set_namespace (v : string) (l : locals) : locals :=
  {| service := service l; namespace := Some v; search := search l;
     summary := summary l; bad_only := bad_only l; show_command := show_command l |}.
Definition set_search (v : string) (l : locals) : locals :=
  {| service := service l; namespace := namespace l; search := Some v;
     summary := summary l; bad_only := bad_only l; show_command := show_command l |}.
Definition set_summary (l : locals) : locals :=
  {| service := service l; namespace := namespace l; search := search l;
     summary := true; bad_only := bad_only l; show_command := show_command l |}.
Definition set_bad_only (l : locals) : locals :=
  {| service := service l; namespace := namespace l; search := search l;
     summary := summary l; bad_only := true; show_command := show_command l |}.
Definition set_show_command (l : locals) : locals :=
  {| service := service l; namespace := namespace l; search := search l;
     summary := summary l; bad_only := bad_only l; show_command := true |}.

Definition is_none {A : Type} (o : option A) : bool :=
  match o with
  | None => true
  | Some _ => false
  end.

(** The [while i < len(args)] loop; the argument is [args[i:]], so that
    [i += 1] is the tail and [i += 2] the tail of the tail. *)
Fixpoint scan (args : list string) (l : locals) : result locals :=
  match args with
  | [] => Ok l
  | a :: rest =>
      if (a =? "--summary")%string then scan rest (set_summary l)
      else if (a =? "--bad")%string then scan rest (set_bad_only l)
      else if (a =? "--show-command")%string || (a =? "--showCommand")%string then
        scan rest (set_show_command l)
      else if (a =? "-n")%string || (a =? "--ns")%string then
        match rest with
        | [] => Raise (BadParameter "Missing value after -n/--ns")
        | v :: rest' => scan rest' (set_namespace v l)
        end
      else if (a =? "-s")%string || (a =? "--search")%string then
        match rest with
        | [] => Raise (BadParameter "Missing value after -s/--search")
        | v :: rest' => scan rest' (set_search v l)
        end
      else if negb (Py.startswith a "-") && is_none (service l) then
        scan rest (set_service a l)
      else scan rest l
  end.

(** The same loop with the index [i] of the source; [fuel] bounds the
    number of iterations.  [while_loop_scan] below shows that the two
    agree as soon as [fuel] exceeds the number of tokens left. *)
Fixpoint while_loop (fuel : nat) (args : list string) (i : nat) (l : locals)
  : option (result locals) :=
  match fuel with
  | 0 => None
  | S fuel' =>
      if negb (i <? List.length args)%nat then Some (Ok l)
      else
        let a := nth i args "" in
        if (a =? "--summary")%string then while_loop fuel' args (i + 1) (set_summary l)
        else if (a =? "--bad")%string then while_loop fuel' args (i + 1) (set_bad_only l)
        else if (a =? "--show-command")%string || (a =? "--showCommand")%string then
          while_loop fuel' args (i + 1) (set_show_command l)
        else if (a =? "-n")%string || (a =? "--ns")%string then
          if (List.length args <=? i + 1)%nat
          then Some (Raise (BadParameter "Missing value after -n/--ns"))
          else while_loop fuel' args (i + 2) (set_namespace (nth (i + 1) args "") l)
        else if (a =? "-s")%string || (a =? "--search")%string then
          if (List.length args <=? i + 1)%nat
          then Some (Raise (BadParameter "Missing value after -s/--search"))
          else while_loop fuel' args (i + 2) (set_search (nth (i + 1) args "") l)
        else if negb (Py.startswith a "-") && is_none (service l) then
          while_loop fuel' args (i + 1) (set_service a l)
        else while_loop fuel' args (i + 1) l
  end.

(** [args = argv[:]] less an optional leading [pods]. *)
Definition strip_pods (argv : list string) : list string :=
  match argv with
  | a :: rest => if (a =? "pods")%string then rest else argv
  | [] => argv
  end.

Definition parsed : Type :=
  (option string * option string * option string * bool * bool * bool)%type.

Definition parse_args (argv : list string) : result parsed :=
  l <- scan (strip_pods argv) initial ;;
  Ok (service l, namespace l, search l, summary l, bad_only l, show_command l).

(** *** pods_impl *)

(** What the program sends to the console: a line of markup, or the table. *)
Inductive output : Type :=
| Print (markup : string)
| PrintTable (title : string) (columns : list string) (rows : list (list Py.value)).

(** [pod["metadata"]["name"]] *)
Definition name_of (pod : Py.value) : result Py.value :=
  m <- Py.getitem pod "metadata" ;;
  Py.getitem m "name".

(** [re.search(pattern, name)] as a truth value: the pattern is compiled
    first, then the subject must be a string. *)
Definition re_search (w : world) (pattern : string) (name : Py.value) : result bool :=
  if negb (re_compiles w pattern) then Raise ReError
  else match name with
       | Py.VStr n => Ok (re_matches w pattern n)
       | _ => Raise TypeError
       end.

(** The first loop of [pods_impl]: the pods appended to [filtered]. *)
Fixpoint filter_loop (w : world) (svc search : option string) (items : list Py.value)
  : result (list Py.value) :=
  match items with
  | [] => Ok []
  | pod :: items' =>
      name <- name_of pod ;;
      skip_svc <- match svc with
                  | Some s => if negb (s =? "")%string
                              then b <- Py.str_in s name ;; Ok (negb b)
                              else Ok false
                  | None => Ok false
                  end ;;
      if skip_svc : bool then filter_loop w svc search items'
      else
        skip_search <- match search with
                       | Some p => if negb (p =? "")%string
                                   then b <- re_search w p name ;; Ok (negb b)
                                   else Ok false
                       | None => Ok false
                       end ;;
        if skip_search : bool then filter_loop w svc search items'
        else
          filtered <- filter_loop w svc search items' ;;
          Ok (pod :: filtered)
  end.

(** [counts[state] = counts.get(state, 0) + 1], the dict in insertion order. *)
Fixpoint incr (counts : list (Py.value * nat)) (state : Py.value) : list (Py.value * nat) :=
  match counts with
  | [] => [(state, 1)]
  | (k, n) :: counts' =>
      if Py.key_eq k state then (k, S n) :: counts'
      else (k, n) :: incr counts' state
  end.

(** The second loop: the tally and the problematic pods. *)
Fixpoint count_loop (pods : list Py.value) (counts : list (Py.value * nat))
         (bad_pods : list Py.value) : result (list (Py.value * nat) * list Py.value) :=
  match pods with
  | [] => Ok (counts, bad_pods)
  | pod :: pods' =>
      sb <- pod_state pod ;;
      if negb (Py.hashable (fst sb)) then Raise TypeError
      else
        count_loop pods' (incr counts (fst sb))
                   (if snd sb : bool then (bad_pods ++ [pod])%list else bad_pods)
  end.

Fixpoint add_row (w : world) (cells : list Py.value) : result (list Py.value) :=
  match cells with
  | [] => Ok []
  | c :: cells' =>
      if renderable w c then r <- add_row w cells' ;; Ok (c :: r)
      else Raise NotRenderableError
  end.

(** The third loop: the rows of the table. *)
Fixpoint rows_loop (w : world) (show : list Py.value) : result (list (list Py.value)) :=
  match show with
  | [] => Ok []
  | pod :: show' =>
      name <- name_of pod ;;
      sb <- pod_state pod ;;
      row <- add_row w [name; fst sb; Py.VStr (if snd sb : bool then "YES" else "")] ;;
      rows <- rows_loop w show' ;;
      Ok (row :: rows)
  end.

Definition running_line (show_command : bool) (ns : string) : list output :=
  if show_command
  then [Print ("[dim]Running: "
               ++ Py.join " " ["kubectl"; "get"; "pods"; "-n"; ns; "-o"; "json"]
               ++ "[/dim]")]
  else [].

(** [items]: the pods the query returns. *)
Definition query_items (w : world) (ns : string) : result (list Py.value) :=
  data <- Kube.get_pods_json (subprocess_run w) (json_loads w) ns ;;
  it <- Py.get data "items" (Py.VList []) ;;
  Py.iter (Py.or_ it (Py.VList [])).

(** [filtered]: the pods that pass the filters. *)
Definition filtered_pods (w : world) (ns : string) (svc search : option string)
  : result (list Py.value) :=
  items <- query_items w ns ;;
  filter_loop w svc search items.

Definition summary_lines (counts : list (Py.value * nat)) (total problematic : nat)
  : list output :=
  [Print ("[bold]Summary:[/bold] "
          ++ Py.join ", " (map (fun kv => Py.str (fst kv) ++ "=" ++ Py.str_of_nat (snd kv))
                               counts));
   Print ("[bold]Total:[/bold] " ++ Py.str_of_nat total
          ++ "  [bold]Problematic:[/bold] " ++ Py.str_of_nat problematic)].

(** The console output, in order, and how the call ends. *)
Definition pods_impl (w : world) (service namespace search : option string)
           (summary bad_only show_command : bool) : list output * result unit :=
  let ns := resolve_namespace w namespace in
  let svc := resolve_service w service in
  let out := running_line show_command ns in
  match filtered_pods w ns svc search with
  | Raise e => (out, Raise e)
  | Ok [] => ((out ++ [Print "[yellow]No pods matched[/yellow]"])%list, Raise (Exit 1))
  | Ok filtered =>
      match (cb <- count_loop filtered [] [] ;;
             rows <- rows_loop w (if bad_only then snd cb else filtered) ;;
             Ok (cb, rows)) with
      | Raise e => (out, Raise e)
      | Ok (counts, bad_pods, rows) =>
          ((out ++ [PrintTable ("Pods in " ++ ns) ["Pod"; "State"; "Bad"] rows]
                ++ (if summary
                    then summary_lines counts (List.length filtered) (List.length bad_pods)
                    else []))%list,
           Ok tt)
      end
  end.

Definition main_impl (w : world) (args : list string) : list output * result unit :=
  match parse_args args with
  | Raise e => ([], Raise e)
  | Ok (service, namespace, search, summary, bad_only, show_command) =>
      pods_impl w service namespace search summary bad_only show_command
  end.


(** *** Entry points *)

(** [sys.argv[1:] if len(sys.argv) > 1 else []] *)
Definition argv_args (sys_argv : list string) : list string :=
  if (1 <? List.length sys_argv)%nat then skipn 1 sys_argv else [].

(** The [pods] command: it strips a leading [pods] itself before
    [_main_impl] parses what is left. *)
Definition pods_cmd (w : world) (sys_argv : list string) : list output * result unit :=
  main_impl w (strip_pods (argv_args sys_argv)).

(** The callback of the application. *)
Definition main (w : world) (sys_argv : list string) : list output * result unit :=
  main_impl w (argv_args sys_argv).

Definition main_wrapper (w : world) (sys_argv : list string) : list output * result unit :=
  main_impl w (argv_args sys_argv).

(** What the context commands do, in order: a line on the console, or a
    command handed to [subprocess.run(cmd, check=False)], whose exit status
    is not looked at. *)
Inductive action : Type :=
| Say (markup : string)
| Run (cmd : list string).

Definition say_running (show_command : bool) (cmd : list string) : list action :=
  if show_command
  then [Say ("[dim]Running: " ++ Py.join " " cmd ++ "[/dim]")]
  else [].


Definition show_ctx (show_command : bool) : list action :=
  let cmd := ["kubectl"; "config"; "current-context"] in
  (say_running show_command cmd ++ [Run cmd])%list.

End Cli.

(** ** The specification's vocabulary

    The definitions of this module follow the words of the specification,
    not the code; the theorems below compare the two.  A few notions that
    only the proofs need ([apply_unit], [compatible], the shape of a
    record) are kept here too. *)

Module Spec.
Import Config Cli.

(** *** Argument parser *)

(** The two flags that take a value, in their short and long spellings. *)
Definition takes_value (a : string) : bool :=
  ((a =? "-n") || (a =? "--ns") || (a =? "-s") || (a =? "--search"))%string.

(** The tokens the parser recognizes as flags. *)
Definition recognized (a : string) : bool :=
  ((a =? "--summary") || (a =? "--bad") || (a =? "--show-command")
   || (a =? "--showCommand"))%string
  || takes_value a.

(** The positions the left-to-right scan stops at: the first one, the one
    after a token that takes no value, and the one after the value of a
    token that takes one. *)
Inductive reached (args : list string) : nat -> Prop :=
| reached_first : reached args 0
| reached_after_token (i : nat) (a : string) :
    reached args i -> nth_error args i = Some a -> takes_value a = false ->
    reached args (S i)
| reached_after_value (i : nat) (a v : string) :
    reached args i -> nth_error args i = Some a -> takes_value a = true ->
    nth_error args (S i) = Some v ->
    reached args (S (S i)).

(** A value-taking flag is reached by the scan and no token follows it. *)
Definition missing_value (args : list string) : Prop :=
  exists (i : nat) (a : string),
    reached args i /\ nth_error args i = Some a /\ takes_value a = true /\
    nth_error args (S i) = None.

(** A flag unit: a standalone flag, or a value-taking flag with its value;
    and the positional token.  The boolean picks the second spelling. *)
Inductive flag_unit : Type :=
| USummary
| UBad
| UShowCommand (camel : bool)
| UNamespace (long : bool) (v : string)
| USearch (long : bool) (v : string)
| UPositional (p : string).

Definition tokens (u : flag_unit) : list string :=
  match u with
  | USummary => ["--summary"]
  | UBad => ["--bad"]
  | UShowCommand camel => [if camel then "--showCommand" else "--show-command"]
  | UNamespace long v => [if long then "--ns" else "-n"; v]
  | USearch long v => [if long then "--search" else "-s"; v]
  | UPositional p => [p]
  end.

Definition flatten (us : list flag_unit) : list string := flat_map tokens us.

Definition positionals (us : list flag_unit) : list string :=
  flat_map (fun u => match u with UPositional p => [p] | _ => [] end) us.

Definition namespaces (us : list flag_unit) : list string :=
  flat_map (fun u => match u with UNamespace _ v => [v] | _ => [] end) us.

Definition searches (us : list flag_unit) : list string :=
  flat_map (fun u => match u with USearch _ v => [v] | _ => [] end) us.

(** The units hold one positional token, [p], which is not a flag. *)
Definition one_positional (us : list flag_unit) (p : string) : Prop :=
  positionals us = [p] /\ Py.startswith p "-" = false.

(** All the values in [vs] are the same one. *)
Definition agree (vs : list string) : Prop :=
  forall v v' : string, In v vs -> In v' vs -> v = v'.

(** What a unit does to the parser's six variables. *)
Definition apply_unit (l : locals) (u : flag_unit) : locals :=
  match u with
  | USummary => set_summary l
  | UBad => set_bad_only l
  | UShowCommand _ => set_show_command l
  | UNamespace _ v => set_namespace v l
  | USearch _ v => set_search v l
  | UPositional p => if is_none (service l) then set_service p l else l
  end.

(** Two units may be exchanged when they do not set the same variable to
    different values. *)
Definition compatible (u u' : flag_unit) : Prop :=
  match u, u' with
  | UNamespace _ v, UNamespace _ v' => v = v'
  | USearch _ v, USearch _ v' => v = v'
  | UPositional p, UPositional p' => p = p'
  | _, _ => True
  end.


(** *** Pod classification *)

(** The field [k] of the record [v], when [v] is a record that has it. *)
Definition field (v : Py.value) (k : string) : option Py.value :=
  match v with
  | Py.VDict d => Py.lookup k d
  | _ => None
  end.

Definition field_or (v : Py.value) (k : string) (default : Py.value) : Py.value :=
  from_option (field v k) default.

(** A sub-state is non-empty. *)
Definition non_empty (v : Py.value) : bool := Py.truthy v.

Definition status_of (pod : Py.value) : Py.value := field_or pod "status" (Py.VDict []).
Definition phase_of (pod : Py.value) : Py.value :=
  field_or (status_of pod) "phase" (Py.VStr "Unknown").
Definition statuses_of (pod : Py.value) : list Py.value :=
  match field (status_of pod) "containerStatuses" with
  | Some (Py.VList l) => l
  | _ => []
  end.
Definition state_of (cs : Py.value) : Py.value := field_or cs "state" Py.VNone.
Definition waiting_of (cs : Py.value) : Py.value := field_or (state_of cs) "waiting" Py.VNone.
Definition terminated_of (cs : Py.value) : Py.value :=
  field_or (state_of cs) "terminated" Py.VNone.
Definition waiting_reason (cs : Py.value) : Py.value :=
  field_or (waiting_of cs) "reason" (Py.VStr "Waiting").
Definition exit_code (cs : Py.value) : Py.value :=
  field_or (terminated_of cs) "exitCode" (Py.VInt 0).
Definition exit_label (cs : Py.value) : Py.value :=
  Py.VStr (Py.str (field_or (terminated_of cs) "reason" (Py.VStr "Exit"))
           ++ "(exit=" ++ Py.str (exit_code cs) ++ ")").

(** (pod phase, phase not in Running, Succeeded) *)
Definition by_phase (pod : Py.value) : Py.value * bool :=
  (phase_of pod,
   negb (Py.eq_str (phase_of pod) "Running" || Py.eq_str (phase_of pod) "Succeeded")).

(** A container status with a non-empty waiting or terminated sub-state. *)
Definition matching (cs : Py.value) : bool :=
  non_empty (waiting_of cs) || non_empty (terminated_of cs).

(** The policy in the specification's words: the first matching status
    decides, whatever it holds. *)
Definition classify_first_matching (pod : Py.value) : Py.value * bool :=
  match find matching (statuses_of pod) with
  | Some cs =>
      if non_empty (waiting_of cs) then (waiting_reason cs, true)
      else if Py.ne_zero (exit_code cs) then (exit_label cs, true)
      else by_phase pod
  | None => by_phase pod
  end.

(** A container status that is waiting, or terminated with a nonzero exit
    code. *)
Definition failing (cs : Py.value) : bool :=
  non_empty (waiting_of cs)
  || (non_empty (terminated_of cs) && Py.ne_zero (exit_code cs)).

(** The policy with a clean exit passed over: the first failing status
    decides. *)
Definition classify_first_failing (pod : Py.value) : Py.value * bool :=
  match find failing (statuses_of pod) with
  | Some cs =>
      if non_empty (waiting_of cs) then (waiting_reason cs, true)
      else (exit_label cs, true)
  | None => by_phase pod
  end.

(** The shape of a pod record: records where the specification has
    records, a list of container statuses; any of them may be absent, null
    or empty. *)
Definition is_dict (v : Py.value) : bool :=
  match v with
  | Py.VDict _ => true
  | _ => false
  end.

Definition record_or_empty (v : Py.value) : bool := is_dict v || negb (Py.truthy v).

(** A field that is absent, null or empty. *)
Definition lacking (o : option Py.value) : bool :=
  match o with
  | Some v => negb (Py.truthy v)
  | None => true
  end.

Definition status_shaped (cs : Py.value) : bool :=
  is_dict cs
  && record_or_empty (state_of cs)
  && record_or_empty (waiting_of cs)
  && record_or_empty (terminated_of cs).

Definition pod_shaped (pod : Py.value) : bool :=
  is_dict pod
  && is_dict (status_of pod)
  && match field (status_of pod) "containerStatuses" with
     | Some v => if Py.truthy v
                 then match v with Py.VList l => forallb status_shaped l | _ => false end
                 else true
     | None => true
     end.


(** *** Filtering *)

(** The substring a service alias resolves to. *)
Definition resolved (w : world) (tag : string) : string :=
  Config.get (services (load_config (config_file w))) tag tag.

(** A pod of this name is retained: when a service alias is given the
    name contains the resolved substring, and when a search pattern is
    given a regular-expression search of the name succeeds. *)
Definition retained (w : world) (service search : option string) (name : string) : bool :=
  implb (given service) (Py.contains (resolved w (from_option service "")) name)
  && implb (given search) (re_matches w (from_option search "") name).

Definition named (pod : Py.value) : Prop :=
  exists n : string, name_of pod = Ok (Py.VStr n).

Definition retained_pod (w : world) (service search : option string) (pod : Py.value) : bool :=
  match name_of pod with
  | Ok (Py.VStr n) => retained w service search n
  | _ => false
  end.



(** *** Notions for the further properties *)

(** The six variables as the tuple [parse_args] returns, and back. *)
Definition tuple_of (l : locals) : parsed :=
  (service l, namespace l, search l, summary l, bad_only l, show_command l).

Definition locals_of (r : parsed) : locals :=
  let '(sv, ns, se, su, ba, sh) := r in
  {| service := sv; namespace := ns; search := se;
     summary := su; bad_only := ba; show_command := sh |}.

(** [pod_state] returns, and says the pod is problematic. *)
Definition problematic (pod : Py.value) : bool :=
  match pod_state pod with
  | Ok (_, true) => true
  | _ => false
  end.

(** The sum of the counts of a tally. *)
Definition total (counts : list (Py.value * nat)) : nat :=
  fold_right (fun kn acc => snd kn + acc) 0 counts.

(** No key of the tally equals a later one. *)
Fixpoint distinct_keys (counts : list (Py.value * nat)) : Prop :=
  match counts with
  | [] => True
  | (k, _) :: counts' =>
      Forall (fun kn => Py.key_eq k (fst kn) = false) counts' /\ distinct_keys counts'
  end.

(** The row [add_row] is given for a pod. *)
Definition row_of (pod : Py.value) (row : list Py.value) : Prop :=
  exists (name label : Py.value) (bad : bool),
    name_of pod = Ok name /\ pod_state pod = Ok (label, bad) /\
    row = [name; label; Py.VStr (if bad then "YES" else "")].

(** The rows of the tables in an output. *)
Definition table_rows (out : list output) : list (list Py.value) :=
  flat_map (fun o => match o with PrintTable _ _ rows => rows | Print _ => [] end) out.

Definition first_char (s : string) : option ascii :=
  match s with
  | EmptyString => None
  | String c _ => Some c
  end.

Fixpoint last_char (s : string) : option ascii :=
  match s with
  | EmptyString => None
  | String c EmptyString => Some c
  | String _ s' => last_char s'
  end.

(** Neither the first nor the last character is white space. *)
Definition trimmed (s : string) : Prop :=
  (forall c : ascii, first_char s = Some c -> Kube.isspace c = false) /\
  (forall c : ascii, last_char s = Some c -> Kube.isspace c = false).


(** Where the six values after the loop come from: the values before it, or
    the tokens. *)
Definition from_tokens (args : list string) (l l' : locals) : Prop :=
  (forall s : string, service l' = Some s ->
     service l = Some s \/ (In s args /\ Py.startswith s "-" = false)) /\
  (forall v : string, namespace l' = Some v -> namespace l = Some v \/ In v args) /\
  (forall v : string, search l' = Some v -> search l = Some v \/ In v args) /\
  (summary l' = true -> summary l = true \/ In "--summary" args) /\
  (bad_only l' = true -> bad_only l = true \/ In "--bad" args) /\
  (show_command l' = true ->
     show_command l = true \/ In "--show-command" args \/ In "--showCommand" args).


(** The pod's label equals the key [k]. *)
Definition labelled (k : Py.value) (pod : Py.value) : bool :=
  match pod_state pod with
  | Ok (label, _) => Py.key_eq k label
  | Raise _ => false
  end.

(** What a key is compared by: nothing, a number (a boolean counts as 0 or
    1), or a string; a list or a dict has no code. *)
Inductive key_code : Type :=
| CNone
| CNum (z : Z)
| CStr (s : string).

Definition code (v : Py.value) : option key_code :=
  match v with
  | Py.VNone => Some CNone
  | Py.VBool b => Some (CNum (if b then 1 else 0))
  | Py.VInt z => Some (CNum z)
  | Py.VStr s => Some (CStr s)
  | Py.VList _ | Py.VDict _ => None
  end.

(** A pod passes the service test of the filter. *)
Definition passes_service (svc : option string) (pod : Py.value) : bool :=
  match name_of pod with
  | Ok (Py.VStr n) => implb (given svc) (Py.contains (from_option svc "") n)
  | _ => false
  end.


(** How many of the pods carry the label [k]. *)
Definition occurrences (k : Py.value) (pods : list Py.value) : nat :=
  List.length (filter (labelled k) pods).


(** The tally is exact for the pods seen: its keys differ from one another,
    each key is counted as often as a pod carries it, and every pod's label
    is among the keys. *)
Definition tallied (counts : list (Py.value * nat)) (seen : list Py.value) : Prop :=
  distinct_keys counts /\
  (forall (k : Py.value) (n : nat),
      In (k, n) counts -> Py.hashable k = true /\ n = occurrences k seen /\ 1 <= n) /\
  (forall pod : Py.value,
      In pod seen ->
      exists (k : Py.value) (n : nat), In (k, n) counts /\ labelled k pod = true).

End Spec.

(** ** Sample records *)

Module Examples.
Import Py.

(** A container status in each of the three states. *)
Definition cs_running (name : string) : value :=
  VDict [("name", VStr name);
         ("state", VDict [("running", VDict [("startedAt", VStr "2024-05-01T10:00:00Z")])])].

Definition cs_waiting (name reason : string) : value :=
  VDict [("name", VStr name);
         ("state", VDict [("waiting", VDict [("reason", VStr reason)])])].

Definition cs_terminated (name reason : string) (code : Z) : value :=
  VDict [("name", VStr name);
         ("state", VDict [("terminated", VDict [("exitCode", VInt code);
                                                ("reason", VStr reason)])])].

Definition pod (name phase : string) (statuses : list value) : value :=
  VDict [("metadata", VDict [("name", VStr name)]);
         ("status", VDict [("phase", VStr phase); ("containerStatuses", VList statuses)])].

(** A sidecar that exited cleanly, listed before a crashing container. *)
Definition pod_clean_exit_first : value :=
  pod "batch-7" "Running"
      [cs_terminated "setup" "Completed" 0; cs_waiting "app" "CrashLoopBackOff"].

Definition pod_error_exit : value :=
  pod "web-1" "Running" [cs_running "proxy"; cs_terminated "app" "Error" 1].

(** A record whose status has a phase and no container statuses, and one
    whose status has container statuses and no phase. *)
Definition pod_no_statuses : dict :=
  [("metadata", VDict [("name", VStr "idle-0")]);
   ("status", VDict [("phase", VStr "Running")])].

Definition pod_no_phase : dict :=
  [("metadata", VDict [("name", VStr "pull-3")]);
   ("status", VDict [("containerStatuses", VList [cs_waiting "app" "ImagePullBackOff"])])].

(** A record with a name and nothing else. *)
Definition pod_bare : dict := [("metadata", VDict [("name", VStr "ghost")])].


(** A world with no configuration file, a cluster of two pods, patterns
    that are plain text, and a table that takes strings. *)
Definition cluster : value := VDict [("items", VList [pod_error_exit; pod_clean_exit_first])].

Definition world_no_config : Cli.world :=
  {| Cli.config_file := None;
     Cli.subprocess_run :=
       fun _ => {| Kube.returncode := 0; Kube.stdout := "{}"; Kube.stderr := "" |};
     Cli.json_loads := fun _ => Ok cluster;
     Cli.re_compiles := fun _ => true;
     Cli.re_matches := fun p n => contains p n;
     Cli.renderable := fun v => match v with VStr _ | VNone => true | _ => false end |}.


(** The same world with a configuration file and with a command that fails. *)
Definition config_sample : Config.yaml_data :=
  {| Config.y_default_namespace := Some "staging";
     Config.y_contexts := Some [("west", "arn:aws:eks:us-west-2:cluster/main")];
     Config.y_services := Some [("web", "web-frontend"); ("db", "postgres")] |}.

Definition world_config : Cli.world :=
  {| Cli.config_file := Some config_sample;
     Cli.subprocess_run := Cli.subprocess_run world_no_config;
     Cli.json_loads := Cli.json_loads world_no_config;
     Cli.re_compiles := Cli.re_compiles world_no_config;
     Cli.re_matches := Cli.re_matches world_no_config;
     Cli.renderable := Cli.renderable world_no_config |}.

Definition world_kubectl_fails : Cli.world :=
  {| Cli.config_file := None;
     Cli.subprocess_run :=
       fun _ => {| Kube.returncode := 1; Kube.stdout := "";
                   Kube.stderr := "  error: connection refused " |};
     Cli.json_loads := Cli.json_loads world_no_config;
     Cli.re_compiles := Cli.re_compiles world_no_config;
     Cli.re_matches := Cli.re_matches world_no_config;
     Cli.renderable := Cli.renderable world_no_config |}.

(** Two healthy pods. *)
Definition pod_healthy (name : string) : value := pod name "Running" [cs_running "app"].


Definition world_healthy : Cli.world :=
  {| Cli.config_file := None;
     Cli.subprocess_run := Cli.subprocess_run world_no_config;
     Cli.json_loads :=
       fun _ => Ok (VDict [("items", VList [pod_healthy "api-0"; pod_healthy "api-1"])]);
     Cli.re_compiles := Cli.re_compiles world_no_config;
     Cli.re_matches := Cli.re_matches world_no_config;
     Cli.renderable := Cli.renderable world_no_config |}.


(** A world whose regular expressions reject the pattern [bad]. *)
Definition world_rejects (bad : string) : Cli.world :=
  {| Cli.config_file := None;
     Cli.subprocess_run := Cli.subprocess_run world_no_config;
     Cli.json_loads := Cli.json_loads world_no_config;
     Cli.re_compiles := fun p => negb (p =? bad)%string;
     Cli.re_matches := Cli.re_matches world_no_config;
     Cli.renderable := Cli.renderable world_no_config |}.

End Examples.

(** * Properties *)

Module ParserProps.
Import Cli Spec.

(** The loop steps by one token or by two: induction to match. *)
Lemma list_pair_ind (A : Type) (P : list A -> Prop) :
  P [] ->
  (forall a : A, P [a]) ->
  (forall (a b : A) (l : list A), P l -> P (b :: l) -> P (a :: b :: l)) ->
  forall l : list A, P l.
Proof.
  intros Hnil Hone Hstep l.
  assert (H : P l /\ forall a : A, P (a :: l)).
  { induction l as [|b l [IHl IHbl]].
    - split; [exact Hnil | exact Hone].
    - split; [apply IHbl | intro a; apply Hstep; [exact IHl | apply IHbl]]. }
  exact (proj1 H).
Qed.

(** One iteration of the loop. *)
Lemma scan_cons (a : string) (rest : list string) (l : locals) :
  scan (a :: rest) l =
  if (a =? "--summary")%string then scan rest (set_summary l)
  else if (a =? "--bad")%string then scan rest (set_bad_only l)
  else if ((a =? "--show-command") || (a =? "--showCommand"))%string then
    scan rest (set_show_command l)
  else if ((a =? "-n") || (a =? "--ns"))%string then
    match rest with
    | [] => Raise (BadParameter "Missing value after -n/--ns")
    | v :: rest' => scan rest' (set_namespace v l)
    end
  else if ((a =? "-s") || (a =? "--search"))%string then
    match rest with
    | [] => Raise (BadParameter "Missing value after -s/--search")
    | v :: rest' => scan rest' (set_search v l)
    end
  else if negb (Py.startswith a "-") && is_none (service l) then
    scan rest (set_service a l)
  else scan rest l.
Proof. reflexivity. Qed.

Lemma skipn_nth (args : list string) (i : nat) :
  i < List.length args -> skipn i args = nth i args "" :: skipn (S i) args.
Proof.
  revert i. induction args as [|a args IH]; intros i Hi; simpl in Hi; [lia|].
  destruct i as [|i]; [reflexivity|]. simpl. apply IH. lia.
Qed.

(** The loop on the index is the loop on the rest of the tokens. *)
Lemma while_loop_scan (fuel : nat) :
  forall (args : list string) (i : nat) (l : locals),
    List.length args - i < fuel ->
    while_loop fuel args i l = Some (scan (skipn i args) l).
Proof.
  induction fuel as [|fuel IH]; intros args i l Hfuel; [lia|].
  cbn [while_loop].
  destruct (Nat.ltb_spec i (List.length args)) as [Hi|Hi]; cbn [negb].
  - rewrite (skipn_nth args i Hi), scan_cons.
    replace (i + 1) with (S i) by lia. replace (i + 2) with (S (S i)) by lia.
    repeat match goal with
           | |- (if ?c then _ else _) = Some (if ?c then _ else _) => destruct c
           end;
      try (apply IH; lia);
      (destruct (Nat.leb_spec (List.length args) (S i)) as [Hv|Hv];
       [ now rewrite (skipn_all2 args (n := S i)) by lia
       | rewrite (skipn_nth args (S i)) by lia; apply IH; lia ]).
  - now rewrite (skipn_all2 args (n := i)) by lia.
Qed.

Lemma while_loop_all (args : list string) (l : locals) :
  while_loop (S (List.length args)) args 0 l = Some (scan args l).
Proof. apply (while_loop_scan (S (List.length args)) args 0 l). lia. Qed.

Ltac split_scan H :=
  rewrite scan_cons in H; cbv beta iota in H;
  repeat match type of H with
         | context [if ?c then _ else _] => destruct c
         end.

Lemma scan_never_raises_other (args : list string) :
  forall (l : locals) (e : exn),
    scan args l = Raise e ->
    e = BadParameter "Missing value after -n/--ns" \/
    e = BadParameter "Missing value after -s/--search".
Proof.
  induction args as [|a|a b rest IH1 IH2] using list_pair_ind; intros l e H.
  - discriminate.
  - split_scan H; try discriminate; injection H as <-; auto.
  - split_scan H; eauto.
Qed.

(** *** The leading [pods] token *)

Lemma strip_pods_other (t : list string) :
  hd_error t <> Some "pods" -> strip_pods t = t.
Proof.
  destruct t as [|a t]; [reflexivity|]. simpl. intro H.
  destruct (String.eqb_spec a "pods") as [->|_]; [now elim H | reflexivity].
Qed.

Lemma parse_args_strip_pods_eq (t : list string) :
  hd_error t <> Some "pods" -> parse_args ("pods" :: t) = parse_args t.
Proof.
  intro H. unfold parse_args. simpl strip_pods. now rewrite (strip_pods_other t H).
Qed.

(** C2, as stated, fails: the parser strips one leading [pods] only, so a
    second one becomes the service. *)
Lemma parse_args_strip_pods_twice :
  parse_args ["pods"; "pods"] = Ok (Some "pods", None, None, false, false, false) /\
  parse_args ["pods"] = Ok (None, None, None, false, false, false) /\
  parse_args ("pods" :: ["pods"]) <> parse_args ["pods"].
Proof. repeat split. discriminate. Qed.

(** C2, amended: for every token sequence whose first token is [pods] and
    whose second token is not [pods] again, parsing it yields the same
    result (the six-tuple, or the usage error) as parsing it with the
    leading [pods] removed. *)
Theorem parse_args_strip_pods (t : list string) :
  hd_error t <> Some "pods" ->
  parse_args ("pods" :: t) = parse_args t.
Proof.
  intro H. unfold parse_args. simpl strip_pods.
  now rewrite (strip_pods_other t H).
Qed.

Lemma parse_args_strip_pods_witness :
  parse_args ["pods"; "web"; "--summary"; "-n"; "prod"]
  = parse_args ["web"; "--summary"; "-n"; "prod"].
Proof. apply parse_args_strip_pods. simpl. discriminate. Defined.

(** *** Usage errors *)

Lemma reached_skip_token (a : string) (rest : list string) (i : nat) :
  takes_value a = false -> reached rest i -> reached (a :: rest) (S i).
Proof.
  intros Ha H. induction H as [|i b Hr IH Hb Hv|i b v Hr IH Hb Hv Hn].
  - now apply (reached_after_token _ 0 a); [constructor| |].
  - now apply (reached_after_token _ (S i) b).
  - now apply (reached_after_value _ (S i) b v).
Qed.

Lemma reached_skip_value (a v : string) (rest : list string) (i : nat) :
  takes_value a = true -> reached rest i -> reached (a :: v :: rest) (S (S i)).
Proof.
  intros Ha H. induction H as [|i b Hr IH Hb Hv|i b w Hr IH Hb Hv Hn].
  - now apply (reached_after_value _ 0 a v); [constructor| | |].
  - now apply (reached_after_token _ (S (S i)) b).
  - now apply (reached_after_value _ (S (S i)) b w).
Qed.

Lemma reached_token_inv (a : string) (rest : list string) (n : nat) :
  takes_value a = false -> reached (a :: rest) n ->
  n = 0 \/ exists i : nat, n = S i /\ reached rest i.
Proof.
  intros Ha H. induction H as [|i b Hr IH Hb Hv|i b v Hr IH Hb Hv Hn].
  - now left.
  - right. exists i. split; [reflexivity|].
    destruct IH as [->|(j & -> & Hj)]; [constructor|].
    now apply (reached_after_token _ j b).
  - right. exists (S i). split; [reflexivity|].
    destruct IH as [->|(j & -> & Hj)]; [simpl in Hb; congruence|].
    now apply (reached_after_value _ j b v).
Qed.

Lemma reached_value_inv (a v : string) (rest : list string) (n : nat) :
  takes_value a = true -> reached (a :: v :: rest) n ->
  n = 0 \/ exists i : nat, n = S (S i) /\ reached rest i.
Proof.
  intros Ha H. induction H as [|i b Hr IH Hb Hv|i b w Hr IH Hb Hv Hn].
  - now left.
  - right. destruct IH as [->|(j & -> & Hj)]; [simpl in Hb; congruence|].
    exists (S j). split; [reflexivity|]. now apply (reached_after_token _ j b).
  - right. destruct IH as [->|(j & -> & Hj)].
    + exists 0. split; [reflexivity | constructor].
    + exists (S (S j)). split; [reflexivity|].
      now apply (reached_after_value _ j b w).
Qed.

Lemma missing_value_token (a : string) (rest : list string) :
  takes_value a = false -> (missing_value (a :: rest) <-> missing_value rest).
Proof.
  intro Ha. split.
  - intros (n & b & Hr & Hb & Hv & Hn).
    destruct (reached_token_inv a rest n Ha Hr) as [->|(i & -> & Hi)].
    + simpl in Hb. congruence.
    + now exists i, b.
  - intros (i & b & Hr & Hb & Hv & Hn).
    exists (S i), b. auto using reached_skip_token.
Qed.

Lemma missing_value_last (a : string) :
  takes_value a = true -> missing_value [a].
Proof. intro Ha. exists 0, a. repeat split; [constructor | exact Ha]. Qed.

Lemma missing_value_value (a v : string) (rest : list string) :
  takes_value a = true -> (missing_value (a :: v :: rest) <-> missing_value rest).
Proof.
  intro Ha. split.
  - intros (n & b & Hr & Hb & Hv & Hn).
    destruct (reached_value_inv a v rest n Ha Hr) as [->|(i & -> & Hi)].
    + simpl in Hn. discriminate.
    + now exists i, b.
  - intros (i & b & Hr & Hb & Hv & Hn).
    exists (S (S i)), b. auto using reached_skip_value.
Qed.

Lemma missing_value_nil : ~ missing_value [].
Proof. intros (i & b & _ & Hb & _). now destruct i. Qed.

(** An iteration either takes one token and goes on, or is at a
    value-taking flag: then it raises when no token follows, and goes on
    after the value otherwise. *)
Lemma scan_step (a : string) (rest : list string) (l : locals) :
  (takes_value a = false /\ exists l' : locals, scan (a :: rest) l = scan rest l') \/
  (takes_value a = true /\
   match rest with
   | [] => exists msg : string, scan [a] l = Raise (BadParameter msg)
   | v :: rest' => exists l' : locals, scan (a :: v :: rest') l = scan rest' l'
   end).
Proof.
  rewrite scan_cons. unfold takes_value.
  destruct (String.eqb_spec a "--summary") as [->|_]; [left; simpl; eauto|].
  destruct (String.eqb_spec a "--bad") as [->|_]; [left; simpl; eauto|].
  destruct (String.eqb_spec a "--show-command") as [->|_]; [left; simpl; eauto|].
  destruct (String.eqb_spec a "--showCommand") as [->|_]; [left; simpl; eauto|].
  destruct (String.eqb_spec a "-n") as [->|_];
    [right; split; [reflexivity | destruct rest; simpl; eauto]|].
  destruct (String.eqb_spec a "--ns") as [->|_];
    [right; split; [reflexivity | destruct rest; simpl; eauto]|].
  destruct (String.eqb_spec a "-s") as [->|_];
    [right; split; [reflexivity | destruct rest; simpl; eauto]|].
  destruct (String.eqb_spec a "--search") as [->|_];
    [right; split; [reflexivity | destruct rest; simpl; eauto]|].
  left. split; [reflexivity|]. simpl.
  destruct (negb (Py.startswith a "-") && is_none (service l)); eauto.
Qed.

Lemma scan_raises_iff (args : list string) :
  forall l : locals,
    (exists e : exn, scan args l = Raise e) <-> missing_value args.
Proof.
  induction args as [|a|a b rest IH1 IH2] using list_pair_ind; intro l.
  - split; [intros (e & H); discriminate | intro H; now elim missing_value_nil].
  - destruct (scan_step a [] l) as [(Ha & l' & ->)|(Ha & msg & ->)].
    + rewrite (missing_value_token a [] Ha). simpl.
      split; [intros (e & H); discriminate | intro H; now elim missing_value_nil].
    + split; [intros _; now apply missing_value_last | eauto].
  - destruct (scan_step a (b :: rest) l) as [(Ha & l' & ->)|(Ha & l' & ->)].
    + rewrite (missing_value_token a (b :: rest) Ha). apply IH2.
    + rewrite (missing_value_value a b rest Ha). apply IH1.
Qed.

Lemma scan_skips_unrecognized (a : string) (rest : list string) (l : locals) :
  recognized a = false ->
  Py.startswith a "-" = true \/ service l <> None ->
  scan (a :: rest) l = scan rest l.
Proof.
  unfold recognized, takes_value. intros Hr Hskip. rewrite scan_cons.
  apply orb_false_elim in Hr as [Hf Hv].
  apply orb_false_elim in Hf as [Hf ->]. apply orb_false_elim in Hf as [Hf ->].
  apply orb_false_elim in Hf as [-> ->].
  apply orb_false_elim in Hv as [Hv ->]. apply orb_false_elim in Hv as [Hv ->].
  apply orb_false_elim in Hv as [-> ->]. simpl.
  destruct Hskip as [-> | Hs]; [reflexivity|].
  destruct (service l); [now rewrite andb_false_r | now elim Hs].
Qed.

(** C6: the parser raises a usage error exactly when the scan reaches a
    [-n]/[--ns] or [-s]/[--search] token that no token follows; it raises
    nothing else, and every other token sequence parses to a six-tuple; a
    token that is no flag the parser knows (and is not taken as the
    service) is passed over. *)
Theorem parse_args_usage_error (argv : list string) :
  ((exists msg : string, parse_args argv = Raise (BadParameter msg))
   <-> missing_value (strip_pods argv)) /\
  (forall e : exn, parse_args argv = Raise e -> exists msg : string, e = BadParameter msg) /\
  (~ missing_value (strip_pods argv) -> exists r : parsed, parse_args argv = Ok r) /\
  (forall (a : string) (l : locals),
      recognized a = false ->
      Py.startswith a "-" = true \/ service l <> None ->
      scan (a :: argv) l = scan argv l).
Proof.
  unfold parse_args.
  pose proof (scan_raises_iff (strip_pods argv) initial) as Hiff.
  pose proof (scan_never_raises_other (strip_pods argv) initial) as Hother.
  split; [|split; [|split]].
  - split.
    + intros (msg & H). apply Hiff.
      destruct (scan (strip_pods argv) initial) as [l|e]; [discriminate | eauto].
    + intro H. apply Hiff in H as (e & H). rewrite H.
      destruct (Hother e H) as [->| ->]; simpl; eauto.
  - intros e H. destruct (scan (strip_pods argv) initial) as [l|e'] eqn:Hscan;
      [discriminate|]. injection H as <-.
    destruct (Hother e' eq_refl) as [->| ->]; eauto.
  - intro H. destruct (scan (strip_pods argv) initial) as [l|e] eqn:Hscan; simpl; [eauto|].
    elim H. apply Hiff. eauto.
  - intros a l. apply scan_skips_unrecognized.
Qed.

Lemma parse_args_usage_error_witness :
  exists msg : string, parse_args ["pods"; "web"; "--search"] = Raise (BadParameter msg).
Proof.
  apply (proj1 (parse_args_usage_error ["pods"; "web"; "--search"])).
  exists 1, "--search". repeat split.
  now apply (reached_after_token _ 0 "web"); [constructor| |].
Defined.

(** *** Values of [-n]/[--ns] and [-s]/[--search] *)

Lemma skipn_nth_error (args : list string) (i : nat) (a : string) :
  nth_error args i = Some a -> skipn i args = a :: skipn (S i) args.
Proof.
  revert i. induction args as [|b args IH]; intros [|i] H; try discriminate.
  - now injection H as ->.
  - apply (IH i H).
Qed.

(** The loop arrives at every position the scan reaches. *)
Lemma scan_reached (args : list string) (i : nat) :
  reached args i ->
  forall l : locals, exists l' : locals, scan args l = scan (skipn i args) l'.
Proof.
  induction 1 as [|i a Hr IH Ha Hv|i a v Hr IH Ha Hv Hn]; intro l.
  - now exists l.
  - destruct (IH l) as (l1 & ->). rewrite (skipn_nth_error args i a Ha).
    destruct (scan_step a (skipn (S i) args) l1) as [(_ & l' & ->)|(Hv' & _)];
      [eauto | congruence].
  - destruct (IH l) as (l1 & ->).
    rewrite (skipn_nth_error args i a Ha), (skipn_nth_error args (S i) v Hn).
    destruct (scan_step a (v :: skipn (S (S i)) args) l1) as [(Hv' & _)|(_ & l' & ->)];
      [congruence | eauto].
Qed.

(** C9: when the scan is at a [-n]/[--ns] or [-s]/[--search] token and one
    more token follows, that token becomes the value, whatever it is, and
    the scan goes on after it: so it is in the loop, from any state, and so
    it is in every token sequence at every such token the scan reaches.
    Thus [-n --summary] sets the namespace to [--summary] and leaves the
    summary flag false. *)
Theorem scan_value_unconditional (v : string) (rest : list string) (l : locals) :
  (scan ("-n" :: v :: rest) l = scan rest (set_namespace v l) /\
   scan ("--ns" :: v :: rest) l = scan rest (set_namespace v l) /\
   scan ("-s" :: v :: rest) l = scan rest (set_search v l) /\
   scan ("--search" :: v :: rest) l = scan rest (set_search v l)) /\
  (forall (args : list string) (i : nat) (a : string),
      reached args i -> nth_error args i = Some a -> nth_error args (S i) = Some v ->
      (a = "-n" \/ a = "--ns" ->
       exists l' : locals,
         scan args l = scan (skipn (S (S i)) args) (set_namespace v l')) /\
      (a = "-s" \/ a = "--search" ->
       exists l' : locals,
         scan args l = scan (skipn (S (S i)) args) (set_search v l'))) /\
  parse_args ["-n"; "--summary"]
  = Ok (None, Some "--summary", None, false, false, false) /\
  parse_args ["-s"; "--bad"; "-n"; "-x"]
  = Ok (None, Some "-x", Some "--bad", false, false, false).
Proof.
  split; [repeat split|]. split; [|split; reflexivity].
  intros args i a Hr Ha Hv. destruct (scan_reached args i Hr l) as (l' & ->).
  rewrite (skipn_nth_error args i a Ha), (skipn_nth_error args (S i) v Hv).
  split; (intros [-> | ->]; exists l'; reflexivity).
Qed.

Lemma scan_value_unconditional_witness :
  exists l' : locals,
    scan ["web"; "--ns"; "--bad"; "--summary"] initial
    = scan ["--summary"] (set_namespace "--bad" l').
Proof.
  destruct (scan_value_unconditional "--bad" [] initial) as (_ & H & _).
  apply (H ["web"; "--ns"; "--bad"; "--summary"] 1 "--ns").
  - now apply (reached_after_token _ 0 "web"); [constructor| |].
  - reflexivity.
  - reflexivity.
  - now right.
Defined.

(** *** Order of the flags *)

Lemma not_flag_neq (p s : string) :
  Py.startswith p "-" = false -> Py.startswith s "-" = true -> (p =? s)%string = false.
Proof.
  intros Hp Hs. destruct (String.eqb_spec p s) as [->|]; [congruence | reflexivity].
Qed.

(** Scanning the tokens of a unit does what [apply_unit] says. *)
Lemma scan_tokens (u : flag_unit) (rest : list string) (l : locals) :
  (forall p : string, u = UPositional p -> Py.startswith p "-" = false) ->
  scan (tokens u ++ rest)%list l = scan rest (apply_unit l u).
Proof.
  intro Hu. destruct u as [| |[|]|[|] v|[|] v|p]; try reflexivity.
  specialize (Hu p eq_refl). simpl tokens. simpl app. rewrite scan_cons.
  rewrite !(not_flag_neq p _ Hu) by reflexivity. rewrite Hu. simpl.
  now destruct (service l).
Qed.

Lemma scan_flatten (us : list flag_unit) :
  (forall p : string, In (UPositional p) us -> Py.startswith p "-" = false) ->
  forall l : locals, scan (flatten us) l = Ok (fold_left apply_unit us l).
Proof.
  induction us as [|u us IH]; intros Hus l; [reflexivity|].
  unfold flatten. simpl flat_map. rewrite scan_tokens.
  - apply IH. intros p Hp. apply Hus. now right.
  - intros p ->. apply Hus. now left.
Qed.

Lemma in_positionals (us : list flag_unit) (p : string) :
  In (UPositional p) us <-> In p (positionals us).
Proof.
  unfold positionals. rewrite in_flat_map. split.
  - intro H. exists (UPositional p). split; [exact H | now left].
  - intros (u & Hu & Hp). destruct u; simpl in Hp; try tauto.
    destruct Hp as [->|[]]. exact Hu.
Qed.

Lemma in_namespaces (us : list flag_unit) (v : string) :
  (exists long : bool, In (UNamespace long v) us) <-> In v (namespaces us).
Proof.
  unfold namespaces. rewrite in_flat_map. split.
  - intros (long & H). exists (UNamespace long v). split; [exact H | now left].
  - intros (u & Hu & Hp). destruct u; simpl in Hp; try tauto.
    destruct Hp as [->|[]]. eauto.
Qed.

Lemma in_searches (us : list flag_unit) (v : string) :
  (exists long : bool, In (USearch long v) us) <-> In v (searches us).
Proof.
  unfold searches. rewrite in_flat_map. split.
  - intros (long & H). exists (USearch long v). split; [exact H | now left].
  - intros (u & Hu & Hp). destruct u; simpl in Hp; try tauto.
    destruct Hp as [->|[]]. eauto.
Qed.

Lemma apply_unit_swap (u u' : flag_unit) (l : locals) :
  compatible u u' ->
  apply_unit (apply_unit l u) u' = apply_unit (apply_unit l u') u.
Proof.
  destruct l as [sv ns se su ba sh].
  destruct u, u'; simpl; intro H; subst; try reflexivity;
    destruct sv; reflexivity.
Qed.

Lemma fold_apply_unit_perm (us us' : list flag_unit) :
  Permutation us us' ->
  (forall u u' : flag_unit, In u us -> In u' us -> compatible u u') ->
  forall l : locals, fold_left apply_unit us l = fold_left apply_unit us' l.
Proof.
  induction 1 as [|u us us' Hp IH|u u' us|us us' us'' Hp1 IH1 Hp2 IH2];
    intros Hc l; simpl.
  - reflexivity.
  - apply IH. intros a b Ha Hb. apply Hc; now right.
  - f_equal. apply apply_unit_swap. apply Hc; simpl; auto.
  - rewrite IH1 by exact Hc. apply IH2.
    intros a b Ha Hb.
    apply Hc; eapply Permutation_in; try eassumption; now apply Permutation_sym.
Qed.

Lemma units_compatible (us : list flag_unit) (p : string) :
  positionals us = [p] -> agree (namespaces us) -> agree (searches us) ->
  forall u u' : flag_unit, In u us -> In u' us -> compatible u u'.
Proof.
  intros Hp Hn Hs u u' Hu Hu'.
  destruct u as [| | | |long v|q], u' as [| | |long' v'|long' v'|q']; simpl; trivial.
  - apply Hn; apply in_namespaces; eauto.
  - apply Hs; apply in_searches; eauto.
  - apply in_positionals in Hu, Hu'. rewrite Hp in Hu, Hu'.
    destruct Hu as [<-|[]], Hu' as [<-|[]]. reflexivity.
Qed.

Lemma hd_flatten_not_pods (us : list flag_unit) :
  (forall q : string, In (UPositional q) us -> q <> "pods") ->
  hd_error (flatten us) <> Some "pods".
Proof.
  destruct us as [|u us]; [discriminate|]. intros Hq.
  destruct u as [| |[|]|[|] v|[|] v|q]; simpl; try discriminate.
  intro H. injection H as ->. now apply (Hq "pods"); [left|].
Qed.

(** Without a leading [pods] to strip, the parser folds the units. *)
Lemma parse_args_flatten (us : list flag_unit) (p : string) :
  one_positional us p -> p <> "pods" ->
  parse_args (flatten us) =
  (let l := fold_left apply_unit us initial in
   Ok (service l, namespace l, search l, summary l, bad_only l, show_command l)).
Proof.
  intros [Hp Hdash] Hpods. unfold parse_args.
  assert (Hin : forall q : string, In (UPositional q) us -> q = p).
  { intros q Hq. apply in_positionals in Hq. rewrite Hp in Hq.
    now destruct Hq as [<-|[]]. }
  rewrite strip_pods_other.
  - rewrite scan_flatten; [reflexivity|].
    intros q Hq. now rewrite (Hin q Hq).
  - apply hd_flatten_not_pods. intros q Hq. now rewrite (Hin q Hq).
Qed.

Lemma positionals_perm (us us' : list flag_unit) :
  Permutation us us' -> Permutation (positionals us) (positionals us').
Proof.
  induction 1 as [|u us us' Hp IH|u u' us|us us' us'' Hp1 IH1 Hp2 IH2]; simpl.
  - constructor.
  - now apply Permutation_app_head.
  - destruct u, u'; simpl; try apply Permutation_refl. apply perm_swap.
  - now apply (perm_trans IH1).
Qed.

(** C3, as stated, fails in two ways: a value-taking flag given twice with
    different values keeps the last one, and a positional token [pods] is
    stripped, not kept, when it comes first. *)
Lemma parse_args_order_counterexample :
  (one_positional [UNamespace false "a"; UNamespace false "b"; UPositional "web"] "web" /\
   Permutation [UNamespace false "a"; UNamespace false "b"; UPositional "web"]
               [UNamespace false "b"; UNamespace false "a"; UPositional "web"] /\
   parse_args (flatten [UNamespace false "a"; UNamespace false "b"; UPositional "web"])
   = Ok (Some "web", Some "b", None, false, false, false) /\
   parse_args (flatten [UNamespace false "b"; UNamespace false "a"; UPositional "web"])
   = Ok (Some "web", Some "a", None, false, false, false)) /\
  (one_positional [UPositional "pods"; USummary] "pods" /\
   Permutation [UPositional "pods"; USummary] [USummary; UPositional "pods"] /\
   parse_args (flatten [UPositional "pods"; USummary])
   = Ok (None, None, None, true, false, false) /\
   parse_args (flatten [USummary; UPositional "pods"])
   = Ok (Some "pods", None, None, true, false, false)).
Proof.
  repeat split; apply perm_swap.
Qed.

(** C3, amended: for every token sequence composed of flag units and one
    positional token other than [pods], in which the namespace units all
    carry one value and the search units all carry one value, every
    permutation of the units yields the same parsed six-tuple. *)
Theorem parse_args_order (us us' : list flag_unit) (p : string) :
  one_positional us p -> p <> "pods" ->
  agree (namespaces us) -> agree (searches us) ->
  Permutation us us' ->
  parse_args (flatten us) = parse_args (flatten us').
Proof.
  intros Hone Hpods Hn Hs Hperm.
  assert (Hone' : one_positional us' p).
  { destruct Hone as [Hp Hdash]. split; [|exact Hdash].
    apply Permutation_length_1_inv. rewrite <- Hp.
    now apply positionals_perm. }
  rewrite (parse_args_flatten us p Hone Hpods).
  rewrite (parse_args_flatten us' p Hone' Hpods).
  rewrite (fold_apply_unit_perm us us' Hperm); [reflexivity|].
  exact (units_compatible us p (proj1 Hone) Hn Hs).
Qed.

Lemma parse_args_order_witness :
  parse_args (flatten [USummary; UNamespace false "prod"; UPositional "web";
                       USearch true "api"; UBad])
  = parse_args (flatten [UBad; USearch true "api"; UPositional "web";
                         UNamespace false "prod"; USummary]).
Proof.
  apply (parse_args_order
           [USummary; UNamespace false "prod"; UPositional "web"; USearch true "api"; UBad]
           [UBad; USearch true "api"; UPositional "web"; UNamespace false "prod"; USummary]
           "web").
  - split; reflexivity.
  - discriminate.
  - intros v v' [<-|[]] [<-|[]]. reflexivity.
  - intros v v' [<-|[]] [<-|[]]. reflexivity.
  - apply (Permutation_rev
             [USummary; UNamespace false "prod"; UPositional "web"; USearch true "api"; UBad]).
Defined.

End ParserProps.

Module PodProps.
Import Config Cli Spec.

Lemma get_record (v : Py.value) (k : string) (default : Py.value) :
  is_dict v = true -> Py.get v k default = Ok (field_or v k default).
Proof. destruct v; try discriminate. reflexivity. Qed.

(** [(x or {}).get(k)] when [x] is a record or empty. *)
Lemma get_record_or_empty (v : Py.value) (k : string) :
  record_or_empty v = true ->
  Py.get (Py.or_ v (Py.VDict [])) k Py.VNone = Ok (field_or v k Py.VNone).
Proof.
  unfold record_or_empty, Py.or_. intro H.
  destruct (Py.truthy v) eqn:Ht.
  - rewrite orb_false_r in H. now apply get_record.
  - destruct v as [| | | | |[|kv d]]; try reflexivity; discriminate.
Qed.

Lemma truthy_record (v : Py.value) :
  record_or_empty v = true -> Py.truthy v = true -> is_dict v = true.
Proof. unfold record_or_empty. intros H Ht. rewrite Ht in H. now rewrite orb_false_r in H. Qed.

(** One iteration of the loop of [pod_state] on a well-shaped status. *)
Lemma pod_state_loop_cons (cs : Py.value) (css : list Py.value) :
  status_shaped cs = true ->
  pod_state_loop (cs :: css) =
  if failing cs
  then Ok (Some (if non_empty (waiting_of cs) then (waiting_reason cs, true)
                 else (exit_label cs, true)))
  else pod_state_loop css.
Proof.
  unfold status_shaped. intro H.
  apply andb_prop in H as [H Ht]. apply andb_prop in H as [H Hw].
  apply andb_prop in H as [Hd Hs].
  cbn [pod_state_loop].
  assert (Hstate : Py.get cs "state" (Py.VDict []) = Ok (field_or cs "state" (Py.VDict [])))
    by now apply get_record.
  rewrite Hstate. cbn [bind].
  assert (Hor : forall k : string,
             Py.get (Py.or_ (field_or cs "state" (Py.VDict [])) (Py.VDict [])) k Py.VNone
             = Ok (field_or (state_of cs) k Py.VNone)).
  { intro k. unfold state_of, field_or in *. destruct (field cs "state") as [st|]; simpl.
    - now apply get_record_or_empty.
    - reflexivity. }
  rewrite !Hor. cbn [bind].
  fold (waiting_of cs). fold (terminated_of cs).
  unfold failing, non_empty.
  destruct (Py.truthy (waiting_of cs)) eqn:Etw; simpl.
  - rewrite (get_record _ _ _ (truthy_record _ Hw Etw)). reflexivity.
  - destruct (Py.truthy (terminated_of cs)) eqn:Ett; simpl; [|reflexivity].
    rewrite !(get_record _ _ _ (truthy_record _ Ht Ett)). cbn [bind].
    fold (exit_code cs). destruct (Py.ne_zero (exit_code cs)); reflexivity.
Qed.

Lemma pod_state_loop_find (css : list Py.value) :
  forallb status_shaped css = true ->
  pod_state_loop css =
  Ok (match find failing css with
      | Some cs => Some (if non_empty (waiting_of cs) then (waiting_reason cs, true)
                         else (exit_label cs, true))
      | None => None
      end).
Proof.
  induction css as [|cs css IH]; [reflexivity|].
  simpl forallb. intro H. apply andb_prop in H as [Hcs Hcss].
  rewrite (pod_state_loop_cons cs css Hcs). simpl find.
  destruct (failing cs); [reflexivity | now apply IH].
Qed.

(** The statuses the loop of [pod_state] visits are [statuses_of]. *)
Lemma iter_statuses (pod : Py.value) :
  pod_shaped pod = true ->
  Py.iter (Py.or_ (field_or (status_of pod) "containerStatuses" (Py.VList [])) (Py.VList []))
  = Ok (statuses_of pod) /\ forallb status_shaped (statuses_of pod) = true.
Proof.
  unfold pod_shaped, statuses_of, field_or. intro H.
  apply andb_prop in H as [_ H].
  destruct (field (status_of pod) "containerStatuses") as [v|]; simpl; [|auto].
  unfold Py.or_. destruct (Py.truthy v) eqn:Ht.
  - destruct v; try discriminate. auto.
  - destruct v as [| | | |[|x l]|]; try discriminate; auto.
Qed.

(** What [pod_state] returns on a well-shaped pod record. *)
Lemma pod_state_first_failing (pod : Py.value) :
  pod_shaped pod = true -> pod_state pod = Ok (classify_first_failing pod).
Proof.
  intro H. destruct (iter_statuses pod H) as [Hiter Hall].
  unfold pod_shaped in H. apply andb_prop in H as [H _]. apply andb_prop in H as [Hp Hs].
  unfold pod_state.
  rewrite (get_record pod _ _ Hp). cbn [bind]. fold (status_of pod).
  rewrite !(get_record (status_of pod) _ _ Hs). cbn [bind].
  rewrite Hiter. cbn [bind].
  rewrite (pod_state_loop_find _ Hall). cbn [bind].
  unfold classify_first_failing.
  destruct (find failing (statuses_of pod)); reflexivity.
Qed.

Lemma find_matching_failing (css : list Py.value) (cs : Py.value) :
  find matching css = Some cs -> failing cs = true -> find failing css = Some cs.
Proof.
  induction css as [|x css IH]; [discriminate|]. simpl. intros Hm Hf.
  destruct (matching x) eqn:Ex.
  - injection Hm as ->. now rewrite Hf.
  - assert (Hx : failing x = false).
    { unfold matching in Ex. unfold failing. apply orb_false_elim in Ex as [-> ->].
      reflexivity. }
    rewrite Hx. now apply IH.
Qed.

(** C1, as stated, fails: a first matching status that terminated with exit
    code zero does not end the inspection; the crashing container listed
    after it decides. *)
Lemma pod_state_consults_later_status :
  pod_shaped Examples.pod_clean_exit_first = true /\
  find matching (statuses_of Examples.pod_clean_exit_first)
  = Some (Examples.cs_terminated "setup" "Completed" 0) /\
  classify_first_matching Examples.pod_clean_exit_first = (Py.VStr "Running", false) /\
  pod_state Examples.pod_clean_exit_first = Ok (Py.VStr "CrashLoopBackOff", true).
Proof. repeat split. Qed.

(** C1, amended: for every well-shaped pod record, classification consults
    the container statuses in order and stops at the first one that is
    waiting (non-empty waiting sub-state) or terminated with a nonzero exit
    code; a waiting one gives (waiting-reason, true), a terminated one
    gives (<reason>(exit=<code>), true); when there is none the result is
    (pod phase, phase not in Running, Succeeded).  A status that terminated
    with exit code zero is passed over, so the result is the one of the
    first matching status whenever that status is itself waiting or of
    nonzero exit code. *)
Theorem pod_state_policy (pod : Py.value) :
  pod_shaped pod = true ->
  pod_state pod = Ok (classify_first_failing pod) /\
  (find failing (statuses_of pod) = find matching (statuses_of pod) ->
   pod_state pod = Ok (classify_first_matching pod)).
Proof.
  intro H. split; [now apply pod_state_first_failing|].
  intro Hsame. rewrite (pod_state_first_failing pod H). f_equal.
  unfold classify_first_failing, classify_first_matching. rewrite <- Hsame.
  destruct (find failing (statuses_of pod)) as [cs|] eqn:Hf; [|reflexivity].
  apply find_some in Hf as [_ Hf]. unfold failing in Hf.
  destruct (non_empty (waiting_of cs)); [reflexivity|]. simpl in Hf.
  apply andb_prop in Hf as [_ ->]. reflexivity.
Qed.

Lemma pod_state_policy_witness :
  pod_state Examples.pod_error_exit = Ok (classify_first_failing Examples.pod_error_exit) /\
  (find failing (statuses_of Examples.pod_error_exit)
   = find matching (statuses_of Examples.pod_error_exit) ->
   pod_state Examples.pod_error_exit = Ok (classify_first_matching Examples.pod_error_exit)).
Proof. apply (pod_state_policy Examples.pod_error_exit). reflexivity. Defined.

(** C8: for every pod whose first matching container status is terminated
    (its waiting sub-state is empty) with exitCode 1 and reason Error,
    classification yields the label Error(exit=1), problematic. *)
Theorem pod_state_error_exit_1 (pod cs : Py.value) :
  pod_shaped pod = true ->
  find matching (statuses_of pod) = Some cs ->
  non_empty (waiting_of cs) = false ->
  field (terminated_of cs) "exitCode" = Some (Py.VInt 1) ->
  field (terminated_of cs) "reason" = Some (Py.VStr "Error") ->
  pod_state pod = Ok (Py.VStr "Error(exit=1)", true).
Proof.
  intros Hpod Hfind Hw Hcode Hreason.
  assert (Hexit : exit_code cs = Py.VInt 1) by (unfold exit_code, field_or; now rewrite Hcode).
  assert (Hfail : failing cs = true).
  { pose proof (find_some _ _ Hfind) as [_ Hm]. unfold matching in Hm.
    unfold failing. rewrite Hw in *. simpl in *. now rewrite Hm, Hexit. }
  rewrite (pod_state_first_failing pod Hpod). unfold classify_first_failing.
  rewrite (find_matching_failing _ _ Hfind Hfail), Hw.
  unfold exit_label. rewrite Hexit. unfold field_or. now rewrite Hreason.
Qed.

Lemma pod_state_error_exit_1_witness :
  pod_state Examples.pod_error_exit = Ok (Py.VStr "Error(exit=1)", true).
Proof.
  apply (pod_state_error_exit_1 Examples.pod_error_exit
                                (Examples.cs_terminated "app" "Error" 1));
    reflexivity.
Defined.

(** C10, as stated, fails for a record that lacks one of the three only: with
    a phase and no container statuses it is classified by its phase, and
    with container statuses and no phase a failing container decides. *)
Lemma pod_state_lacking_one :
  (field (status_of (Py.VDict Examples.pod_no_statuses)) "containerStatuses" = None /\
   pod_state (Py.VDict Examples.pod_no_statuses) = Ok (Py.VStr "Running", false)) /\
  (field (status_of (Py.VDict Examples.pod_no_phase)) "phase" = None /\
   pod_state (Py.VDict Examples.pod_no_phase) = Ok (Py.VStr "ImagePullBackOff", true)).
Proof. repeat split. Qed.

(** C10, amended: a pod record with no status object, or with a status
    object that has no phase field and no container statuses (or none that
    is failing), is classified, as Unknown and problematic; and a pod record
    with no container statuses is classified by its phase. *)
Theorem pod_state_unknown (d : Py.dict) :
  (Py.lookup "status" d = None ->
   pod_state (Py.VDict d) = Ok (Py.VStr "Unknown", true)) /\
  (forall sd : Py.dict,
      Py.lookup "status" d = Some (Py.VDict sd) ->
      Py.lookup "phase" sd = None ->
      lacking (Py.lookup "containerStatuses" sd) = true ->
      pod_state (Py.VDict d) = Ok (Py.VStr "Unknown", true)) /\
  (forall sd : Py.dict,
      Py.lookup "status" d = Some (Py.VDict sd) ->
      Py.lookup "phase" sd = None ->
      pod_shaped (Py.VDict d) = true ->
      find failing (statuses_of (Py.VDict d)) = None ->
      pod_state (Py.VDict d) = Ok (Py.VStr "Unknown", true)) /\
  (forall sd : Py.dict,
      Py.lookup "status" d = Some (Py.VDict sd) ->
      lacking (Py.lookup "containerStatuses" sd) = true ->
      pod_state (Py.VDict d) = Ok (by_phase (Py.VDict d))).
Proof.
  assert (Hlack : forall sd : Py.dict,
             Py.lookup "status" d = Some (Py.VDict sd) ->
             lacking (Py.lookup "containerStatuses" sd) = true ->
             pod_state (Py.VDict d) = Ok (by_phase (Py.VDict d))).
  { intros sd Hs Hl. unfold pod_state, by_phase, phase_of, status_of, field_or.
    simpl. rewrite Hs. simpl.
    destruct (Py.lookup "containerStatuses" sd) as [v|]; [|reflexivity].
    simpl in Hl. unfold Py.or_. apply negb_true_iff in Hl. rewrite Hl. reflexivity. }
  repeat split.
  - intro Hs. unfold pod_state. simpl. now rewrite Hs.
  - intros sd Hs Hp Hl. rewrite (Hlack sd Hs Hl).
    unfold by_phase, phase_of, status_of, field_or. simpl. rewrite Hs. simpl.
    now rewrite Hp.
  - intros sd Hs Hp Hshape Hnone. rewrite (pod_state_first_failing _ Hshape).
    unfold classify_first_failing. rewrite Hnone.
    unfold by_phase, phase_of, status_of, field_or. simpl. rewrite Hs. simpl.
    now rewrite Hp.
  - exact Hlack.
Qed.

Lemma pod_state_unknown_witness :
  pod_state (Py.VDict Examples.pod_bare) = Ok (Py.VStr "Unknown", true).
Proof. apply (proj1 (pod_state_unknown Examples.pod_bare)). reflexivity. Defined.

End PodProps.

Module FilterProps.
Import Config Cli Spec.

(** *** Configuration defaults *)

(** C5, as stated, fails at the empty tag: resolving it returns no tag at
    all, whatever the configuration. *)
Lemma resolve_service_empty_tag :
  config_file Examples.world_no_config = None /\
  resolve_service Examples.world_no_config (Some "") = None /\
  resolve_service Examples.world_no_config (Some "") <> Some "".
Proof. repeat split. discriminate. Qed.

(** C5, amended: when the configuration file is absent, the loaded
    configuration has default namespace [default] and empty context and
    service alias mappings, so a namespace left out resolves to [default]
    and alias resolution is the identity: every context alias and every
    non-empty service tag resolves to itself. *)
Theorem load_config_absent (w : world) :
  config_file w = None ->
  load_config (config_file w)
  = {| default_namespace := "default"; contexts := []; services := [] |} /\
  resolve_namespace w None = "default" /\
  (forall region : string,
      Config.get (contexts (load_config (config_file w))) region region = region) /\
  (forall tag : string, tag <> "" -> resolve_service w (Some tag) = Some tag).
Proof.
  intro H. unfold resolve_namespace, resolve_service. rewrite H. simpl.
  repeat split. intros tag Htag.
  destruct (String.eqb_spec tag "") as [->|_]; [now elim Htag | reflexivity].
Qed.

Lemma load_config_absent_witness :
  resolve_namespace Examples.world_no_config None = "default" /\
  resolve_service Examples.world_no_config (Some "web") = Some "web".
Proof.
  destruct (load_config_absent Examples.world_no_config eq_refl) as (_ & Hns & _ & Hsvc).
  split; [exact Hns | apply Hsvc; discriminate].
Defined.

(** *** The filter *)

Lemma contains_empty (t : string) : Py.contains "" t = true.
Proof. destruct t; reflexivity. Qed.

(** The first test of the loop body is the service half of [retained]. *)
Lemma skip_service (w : world) (service : option string) (n : string) :
  match resolve_service w service with
  | Some s => if negb (s =? "")%string
              then b <- Py.str_in s (Py.VStr n) ;; Ok (negb b)
              else Ok false
  | None => Ok false
  end
  = Ok (negb (implb (given service)
                    (Py.contains (resolved w (from_option service "")) n))).
Proof.
  unfold resolve_service, given, resolved.
  destruct service as [tag|]; [|reflexivity]. simpl from_option.
  destruct (String.eqb_spec tag "") as [->|_]; [reflexivity|]. simpl.
  destruct (String.eqb_spec (Config.get (services (load_config (config_file w))) tag tag) "")
    as [->|_]; simpl; [|reflexivity].
  now rewrite contains_empty.
Qed.

(** The second test is the search half. *)
Lemma skip_search (w : world) (search : option string) (n : string) :
  (given search = true -> re_compiles w (from_option search "") = true) ->
  match search with
  | Some p => if negb (p =? "")%string
              then b <- re_search w p (Py.VStr n) ;; Ok (negb b)
              else Ok false
  | None => Ok false
  end
  = Ok (negb (implb (given search) (re_matches w (from_option search "") n))).
Proof.
  unfold given, re_search. destruct search as [p|]; [|reflexivity]. simpl from_option.
  destruct (String.eqb_spec p "") as [->|_]; [reflexivity|]. simpl.
  intro H. now rewrite (H eq_refl).
Qed.

Lemma filter_loop_filter (w : world) (service search : option string)
      (items : list Py.value) :
  (given search = true -> re_compiles w (from_option search "") = true) ->
  Forall named items ->
  filter_loop w (resolve_service w service) search items
  = Ok (filter (retained_pod w service search) items).
Proof.
  intros Hre Hnamed. induction Hnamed as [|pod items (n & Hn) _ IH]; [reflexivity|].
  cbn [filter_loop filter]. unfold retained_pod at 1. rewrite Hn. cbn [bind].
  rewrite (skip_service w service n). cbn [bind]. unfold retained.
  destruct (implb (given service) _); simpl; [|exact IH].
  rewrite (skip_search w search n Hre). cbn [bind].
  destruct (implb (given search) _); simpl; [|exact IH].
  now rewrite IH.
Qed.

(** C4: for every list of named pods (and a search pattern that
    compiles), the filter keeps, in order, exactly the pods that are
    retained: when a service alias is given the name contains the alias's
    resolved substring, and when a search pattern is given a
    regular-expression search of the name succeeds; when neither is given
    every pod is kept. *)
Theorem filter_loop_retained (w : world) (service search : option string)
        (items : list Py.value) :
  (given search = true -> re_compiles w (from_option search "") = true) ->
  Forall named items ->
  exists filtered : list Py.value,
    filter_loop w (resolve_service w service) search items = Ok filtered /\
    filtered = filter (retained_pod w service search) items /\
    (forall (pod : Py.value) (n : string),
        In pod items -> name_of pod = Ok (Py.VStr n) ->
        (In pod filtered <-> retained w service search n = true)) /\
    (given service = false -> given search = false -> filtered = items).
Proof.
  intros Hre Hnamed. exists (filter (retained_pod w service search) items).
  split; [now apply filter_loop_filter|]. split; [reflexivity|]. split.
  - intros pod n Hin Hn. rewrite filter_In. unfold retained_pod. rewrite Hn. tauto.
  - intros Hsvc Hsearch. apply forallb_filter_id. apply forallb_forall.
    intros pod Hin. rewrite Forall_forall in Hnamed.
    destruct (Hnamed pod Hin) as (n & Hn).
    unfold retained_pod, retained. now rewrite Hn, Hsvc, Hsearch.
Qed.

Lemma filter_loop_retained_witness :
  exists filtered : list Py.value,
    filter_loop Examples.world_no_config
                (resolve_service Examples.world_no_config (Some "web")) (Some "eb-")
                [Examples.pod_error_exit; Examples.pod_clean_exit_first]
    = Ok filtered /\
    filtered = [Examples.pod_error_exit].
Proof.
  destruct (filter_loop_retained Examples.world_no_config (Some "web") (Some "eb-")
              [Examples.pod_error_exit; Examples.pod_clean_exit_first])
    as (filtered & Hloop & Hfilter & _).
  - reflexivity.
  - repeat constructor; eexists; reflexivity.
  - exists filtered. split; [exact Hloop | exact Hfilter].
Defined.

(** *** No pod matched *)



(** When pods do pass, the same call prints the table and returns. *)
Example pods_impl_match :
  pods_impl Examples.world_no_config (Some "web") None None true false false
  = ([PrintTable "Pods in default" ["Pod"; "State"; "Bad"]
                 [[Py.VStr "web-1"; Py.VStr "Error(exit=1)"; Py.VStr "YES"]];
      Print "[bold]Summary:[/bold] Error(exit=1)=1";
      Print "[bold]Total:[/bold] 1  [bold]Problematic:[/bold] 1"],
     Ok tt).
Proof. reflexivity. Qed.

End FilterProps.

(** * Further properties of the code *)

Module ParserMore.
Import Cli Spec ParserProps.

Ltac case_token a :=
  destruct (String.eqb_spec a "--summary") as [->|_];
  [|destruct (String.eqb_spec a "--bad") as [->|_];
    [|destruct (String.eqb_spec a "--show-command") as [->|_];
      [|destruct (String.eqb_spec a "--showCommand") as [->|_];
        [|destruct (String.eqb_spec a "-n") as [->|_];
          [|destruct (String.eqb_spec a "--ns") as [->|_];
            [|destruct (String.eqb_spec a "-s") as [->|_];
              [|destruct (String.eqb_spec a "--search") as [->|_]]]]]]]];
  cbn [orb].

(** A prefix that scans without error hands its state to what follows. *)
Lemma scan_app (xs : list string) :
  forall (ys : list string) (l l' : locals),
    scan xs l = Ok l' -> scan (xs ++ ys)%list l = scan ys l'.
Proof.
  induction xs as [|a|a b rest IH1 IH2] using list_pair_ind; intros ys l l' H.
  - now injection H as ->.
  - cbn [app]. rewrite scan_cons in H |- *. case_token a; cbv beta iota in H;
      try discriminate;
      try (injection H as ->; reflexivity).
    destruct (negb (Py.startswith a "-") && is_none (service l));
      injection H as ->; reflexivity.
  - cbn [app]. rewrite scan_cons in H |- *. case_token a; cbv beta iota in H |- *;
      try (now apply IH1); try (now apply (IH2 ys)).
    destruct (negb (Py.startswith a "-") && is_none (service l)); now apply (IH2 ys).
Qed.

Lemma tuple_of_locals_of (r : parsed) : tuple_of (locals_of r) = r.
Proof. now destruct r as [[[[[sv ns] se] su] ba] sh]. Qed.

Lemma locals_of_tuple_of (l : locals) : locals_of (tuple_of l) = l.
Proof. now destruct l. Qed.

Lemma strip_pods_app (argv more : list string) :
  argv <> [] -> strip_pods (argv ++ more)%list = (strip_pods argv ++ more)%list.
Proof.
  destruct argv as [|a argv]; [now intros []|]. intros _. simpl.
  now destruct (a =? "pods")%string.
Qed.

(** X1: once a token sequence parses without error, tokens appended to it
    are scanned from the six values it parsed to: options may come after
    the service, and a later value replaces an earlier one. *)
Theorem parse_args_append (argv more : list string) (r : parsed) :
  parse_args argv = Ok r -> argv <> [] ->
  parse_args (argv ++ more)%list
  = (l <- scan more (locals_of r) ;; Ok (tuple_of l)).
Proof.
  unfold parse_args. intros H Hne. rewrite (strip_pods_app argv more Hne).
  destruct (scan (strip_pods argv) initial) as [l0|e] eqn:Hscan; [|discriminate].
  simpl in H. injection H as <-.
  rewrite (scan_app _ more _ _ Hscan). fold (tuple_of l0).
  now rewrite locals_of_tuple_of.
Qed.

Lemma parse_args_append_witness :
  parse_args (["pods"; "web"; "-n"; "prod"] ++ ["--bad"; "-n"; "test"; "api"])%list
  = Ok (Some "web", Some "test", None, false, true, false).
Proof.
  rewrite (parse_args_append ["pods"; "web"; "-n"; "prod"] ["--bad"; "-n"; "test"; "api"]
             (Some "web", Some "prod", None, false, false, false)).
  - reflexivity.
  - reflexivity.
  - discriminate.
Defined.

Lemma from_tokens_refl (args : list string) (l : locals) : from_tokens args l l.
Proof. unfold from_tokens. repeat split; auto. Qed.

(** One step back: [l1] is [l] after the tokens [used]. *)
Lemma from_tokens_step (used rest : list string) (l l1 l' : locals) :
  from_tokens used l l1 -> from_tokens rest l1 l' ->
  from_tokens (used ++ rest)%list l l'.
Proof.
  unfold from_tokens.
  intros (Hs & Hn & Hse & Hsu & Hb & Hsh) (Hs' & Hn' & Hse' & Hsu' & Hb' & Hsh').
  repeat split.
  - intros s H. destruct (Hs' s H) as [H1|[H1 H2]].
    + destruct (Hs s H1) as [H3|[H3 H4]]; [now left | right; split; [|exact H4]].
      apply in_or_app. now left.
    + right. split; [|exact H2]. apply in_or_app. now right.
  - intros v H. destruct (Hn' v H) as [H1|H1].
    + destruct (Hn v H1) as [H3|H3]; [now left | right; apply in_or_app; now left].
    + right. apply in_or_app. now right.
  - intros v H. destruct (Hse' v H) as [H1|H1].
    + destruct (Hse v H1) as [H3|H3]; [now left | right; apply in_or_app; now left].
    + right. apply in_or_app. now right.
  - intro H. destruct (Hsu' H) as [H1|H1].
    + destruct (Hsu H1) as [H3|H3]; [now left | right; apply in_or_app; now left].
    + right. apply in_or_app. now right.
  - intro H. destruct (Hb' H) as [H1|H1].
    + destruct (Hb H1) as [H3|H3]; [now left | right; apply in_or_app; now left].
    + right. apply in_or_app. now right.
  - intro H. destruct (Hsh' H) as [H1|[H1|H1]].
    + destruct (Hsh H1) as [H3|[H3|H3]]; [now left | |];
        right; [left|right]; apply in_or_app; now left.
    + right. left. apply in_or_app. now right.
    + right. right. apply in_or_app. now right.
Qed.

Ltac case_token_eq a :=
  let E := fresh "Etoken" in
  destruct (String.eqb_spec a "--summary") as [E|_];
  [|destruct (String.eqb_spec a "--bad") as [E|_];
    [|destruct (String.eqb_spec a "--show-command") as [E|_];
      [|destruct (String.eqb_spec a "--showCommand") as [E|_];
        [|destruct (String.eqb_spec a "-n") as [E|_];
          [|destruct (String.eqb_spec a "--ns") as [E|_];
            [|destruct (String.eqb_spec a "-s") as [E|_];
              [|destruct (String.eqb_spec a "--search") as [E|_]]]]]]]];
  cbn [orb] in *.

Ltac one_token :=
  unfold from_tokens; subst; simpl; repeat split; intros; auto;
  try match goal with H : Some _ = Some _ |- _ => injection H as <- end; auto.

Lemma scan_from_tokens (args : list string) :
  forall l l' : locals, scan args l = Ok l' -> from_tokens args l l'.
Proof.
  induction args as [|a|a b rest IH1 IH2] using list_pair_ind; intros l l' H.
  - injection H as ->. apply from_tokens_refl.
  - rewrite scan_cons in H. case_token_eq a; cbv beta iota in H; try discriminate;
      try (injection H as <-; one_token; fail).
    destruct (Py.startswith a "-") eqn:Hdash; cbn [negb andb is_none] in H.
    + injection H as <-. apply from_tokens_refl.
    + destruct (service l) eqn:Hsv; cbn [negb andb is_none] in H; injection H as <-;
        [apply from_tokens_refl | one_token].
  - rewrite scan_cons in H. case_token_eq a; cbv beta iota in H;
      try (apply (from_tokens_step [a] (b :: rest) l (set_summary l) l');
           [one_token | now apply IH2]);
      try (apply (from_tokens_step [a] (b :: rest) l (set_bad_only l) l');
           [one_token | now apply IH2]);
      try (apply (from_tokens_step [a] (b :: rest) l (set_show_command l) l');
           [one_token | now apply IH2]);
      try (apply (from_tokens_step [a; b] rest l (set_namespace b l) l');
           [one_token | now apply IH1]);
      try (apply (from_tokens_step [a; b] rest l (set_search b l) l');
           [one_token | now apply IH1]).
    destruct (Py.startswith a "-") eqn:Hdash; cbn [negb andb is_none] in H.
    + apply (from_tokens_step [a] (b :: rest) l l l');
        [apply from_tokens_refl | now apply IH2].
    + destruct (service l) eqn:Hsv; cbn [negb andb is_none] in H.
      * apply (from_tokens_step [a] (b :: rest) l l l');
          [apply from_tokens_refl | now apply IH2].
      * apply (from_tokens_step [a] (b :: rest) l (set_service a l) l');
          [one_token | now apply IH2].
Qed.

Lemma in_strip_pods (argv : list string) (s : string) :
  In s (strip_pods argv) -> In s argv.
Proof.
  destruct argv as [|a argv]; [auto|]. simpl.
  destruct (a =? "pods")%string; [now right | auto].
Qed.

(** X2: the parser invents no value: a service it returns is a token of
    the command line that does not start with a dash, and a namespace or a
    search pattern it returns is a token of the command line. *)
Theorem parse_args_values_are_tokens (argv : list string) (sv ns se : option string)
        (su ba sh : bool) :
  parse_args argv = Ok (sv, ns, se, su, ba, sh) ->
  (forall s : string, sv = Some s -> In s argv /\ Py.startswith s "-" = false) /\
  (forall v : string, ns = Some v -> In v argv) /\
  (forall v : string, se = Some v -> In v argv).
Proof.
  unfold parse_args. intro H.
  destruct (scan (strip_pods argv) initial) as [l|e] eqn:Hscan; [|discriminate].
  simpl in H. injection H as <- <- <- <- <- <-.
  destruct (scan_from_tokens _ _ _ Hscan) as (Hs & Hn & Hse & _).
  repeat split.
  - destruct (Hs s H) as [H1|[H1 _]]; [discriminate | now apply in_strip_pods].
  - now destruct (Hs s H) as [H1|[_ H1]]; [discriminate|].
  - intros v H. destruct (Hn v H) as [H1|H1]; [discriminate | now apply in_strip_pods].
  - intros v H. destruct (Hse v H) as [H1|H1]; [discriminate | now apply in_strip_pods].
Qed.

Lemma parse_args_values_are_tokens_witness :
  In "web" ["--ns"; "-x"; "web"; "other"] /\ Py.startswith "web" "-" = false.
Proof.
  destruct (parse_args_values_are_tokens ["--ns"; "-x"; "web"; "other"]
              (Some "web") (Some "-x") None false false false eq_refl) as (H & _).
  exact (H "web" eq_refl).
Defined.

(** X3: no flag is set without its token: the summary flag needs
    [--summary] on the command line, the bad-only flag [--bad], and the
    show-command flag one of its two spellings. *)
Theorem parse_args_flags_need_tokens (argv : list string) (sv ns se : option string)
        (su ba sh : bool) :
  parse_args argv = Ok (sv, ns, se, su, ba, sh) ->
  (su = true -> In "--summary" argv) /\
  (ba = true -> In "--bad" argv) /\
  (sh = true -> In "--show-command" argv \/ In "--showCommand" argv).
Proof.
  unfold parse_args. intro H.
  destruct (scan (strip_pods argv) initial) as [l|e] eqn:Hscan; [|discriminate].
  simpl in H. injection H as <- <- <- <- <- <-.
  destruct (scan_from_tokens _ _ _ Hscan) as (_ & _ & _ & Hsu & Hb & Hsh).
  repeat split.
  - intro H. destruct (Hsu H) as [H1|H1]; [discriminate | now apply in_strip_pods].
  - intro H. destruct (Hb H) as [H1|H1]; [discriminate | now apply in_strip_pods].
  - intro H. destruct (Hsh H) as [H1|[H1|H1]]; [discriminate | left | right];
      now apply in_strip_pods.
Qed.

Lemma parse_args_flags_need_tokens_witness :
  In "--show-command" ["web"; "--showCommand"] \/ In "--showCommand" ["web"; "--showCommand"].
Proof.
  destruct (parse_args_flags_need_tokens ["web"; "--showCommand"]
              (Some "web") None None false false true eq_refl) as (_ & _ & H).
  exact (H eq_refl).
Defined.

(** X4: the loop of [parse_args], run on its index as in the source, ends:
    more iterations than there are tokens are never needed, and the result
    is the one of the scan. *)
Theorem while_loop_terminates (fuel : nat) (args : list string) (l : locals) :
  List.length args < fuel ->
  while_loop fuel args 0 l = Some (scan args l).
Proof.
  intro H. apply (while_loop_scan fuel args 0 l). lia.
Qed.

Lemma while_loop_terminates_witness :
  while_loop 4 ["web"; "-n"; "prod"] 0 initial
  = Some (scan ["web"; "-n"; "prod"] initial).
Proof. apply while_loop_terminates. simpl. lia. Defined.

End ParserMore.

Module PodMore.
Import Config Cli Spec PodProps.

Lemma get_raises (v : Py.value) (k : string) (default : Py.value) (e : exn) :
  Py.get v k default = Raise e -> e = AttributeError.
Proof. destruct v; simpl; intro H; try discriminate; now injection H. Qed.

Lemma iter_raises (v : Py.value) (e : exn) : Py.iter v = Raise e -> e = TypeError.
Proof. destruct v; simpl; intro H; try discriminate; now injection H. Qed.

Ltac split_bind H :=
  repeat match type of H with
         | context [bind ?m _] =>
             let E := fresh "Eget" in destruct m eqn:E; cbn [bind] in H
         | context [if ?c then _ else _] =>
             let E := fresh "Etest" in destruct c eqn:E
         end.

(** Whatever the loop returns, it returns as problematic. *)
Lemma pod_state_loop_true (css : list Py.value) :
  forall (label : Py.value) (bad : bool),
    pod_state_loop css = Ok (Some (label, bad)) -> bad = true.
Proof.
  induction css as [|cs css IH]; intros label bad H; [discriminate|].
  cbn [pod_state_loop] in H. split_bind H; try discriminate; eauto;
    injection H as _ <-; reflexivity.
Qed.

Lemma pod_state_loop_raises (css : list Py.value) :
  forall e : exn, pod_state_loop css = Raise e -> e = AttributeError.
Proof.
  induction css as [|cs css IH]; intros e H; [discriminate|].
  cbn [pod_state_loop] in H. split_bind H; try discriminate; eauto;
    injection H as <-; eauto using get_raises.
Qed.

Lemma eq_str_true (v : Py.value) (s : string) : Py.eq_str v s = true -> v = Py.VStr s.
Proof.
  destruct v; simpl; try discriminate. intro H. apply String.eqb_eq in H. now subst.
Qed.

Ltac open_pod_state H :=
  unfold pod_state in H;
  let status := fresh "status" in let phase := fresh "phase" in
  let cs := fresh "cs" in let css := fresh "css" in let r := fresh "r" in
  destruct (Py.get _ "status" _) as [status|?] eqn:Estatus; cbn [bind] in H;
  [destruct (Py.get status "phase" _) as [phase|?] eqn:Ephase; cbn [bind] in H;
   [destruct (Py.get status "containerStatuses" _) as [cs|?] eqn:Ecs; cbn [bind] in H;
    [destruct (Py.iter _) as [css|?] eqn:Eiter; cbn [bind] in H;
     [destruct (pod_state_loop css) as [r|?] eqn:Eloop; cbn [bind] in H|]|]|]|].

Lemma healthy_label (pod label : Py.value) :
  pod_state pod = Ok (label, false) ->
  label = Py.VStr "Running" \/ label = Py.VStr "Succeeded".
Proof.
  intro H. open_pod_state H; try discriminate.
  destruct r as [[lab bad]|].
  - injection H as _ Hbad. apply pod_state_loop_true in Eloop. congruence.
  - injection H as <- Hbad. apply negb_false_iff, orb_true_iff in Hbad.
    destruct Hbad as [Hp|Hp]; [left | right]; now apply eq_str_true.
Qed.

(** X5: a pod is never reported as healthy under another label than
    [Running] or [Succeeded]: when [pod_state] returns with the problematic
    flag false, whatever the record, the label is one of these two phases. *)
Theorem pod_state_healthy_label (pod label : Py.value) :
  pod_state pod = Ok (label, false) ->
  label = Py.VStr "Running" \/ label = Py.VStr "Succeeded".
Proof. exact (healthy_label pod label). Qed.

Lemma pod_state_healthy_label_witness :
  pod_state (Examples.pod_healthy "api-0") = Ok (Py.VStr "Running", false) /\
  (Py.VStr "Running" = Py.VStr "Running" \/ Py.VStr "Running" = Py.VStr "Succeeded").
Proof.
  split; [reflexivity|].
  apply (pod_state_healthy_label (Examples.pod_healthy "api-0") (Py.VStr "Running")).
  reflexivity.
Defined.

(** X6: whatever the record, [pod_state] raises nothing but
    [AttributeError] (a field that should be a record is not) or [TypeError]
    (the container statuses cannot be iterated): no missing key makes it
    fail. *)
Theorem pod_state_raises (pod : Py.value) (e : exn) :
  pod_state pod = Raise e -> e = AttributeError \/ e = TypeError.
Proof.
  intro H. open_pod_state H.
  - destruct r as [[lab bad]|]; discriminate.
  - injection H as <-. left. now apply (pod_state_loop_raises _ _ Eloop).
  - injection H as <-. right. now apply (iter_raises _ _ Eiter).
  - injection H as <-. left. now apply (get_raises _ _ _ _ Ecs).
  - injection H as <-. left. now apply (get_raises _ _ _ _ Ephase).
  - injection H as <-. left. now apply (get_raises _ _ _ _ Estatus).
Qed.

Lemma pod_state_raises_witness :
  pod_state (Py.VDict [("status", Py.VDict [("containerStatuses", Py.VInt 3)])])
  = Raise TypeError /\
  (TypeError = AttributeError \/ TypeError = TypeError).
Proof.
  split; [reflexivity|].
  apply (pod_state_raises
           (Py.VDict [("status", Py.VDict [("containerStatuses", Py.VInt 3)])]) TypeError).
  reflexivity.
Defined.

(** X7: on a well-shaped pod whose first matching container status is
    waiting, the label is that status's waiting reason as it stands, or
    [Waiting] when the sub-state has no reason field, and the pod is
    problematic. *)
Theorem pod_state_waiting (pod cs : Py.value) :
  pod_shaped pod = true ->
  find matching (statuses_of pod) = Some cs ->
  non_empty (waiting_of cs) = true ->
  (forall r : Py.value,
      field (waiting_of cs) "reason" = Some r -> pod_state pod = Ok (r, true)) /\
  (field (waiting_of cs) "reason" = None ->
   pod_state pod = Ok (Py.VStr "Waiting", true)).
Proof.
  intros Hpod Hfind Hw.
  assert (Hfail : failing cs = true) by (unfold failing; now rewrite Hw).
  assert (H : pod_state pod = Ok (waiting_reason cs, true)).
  { rewrite (pod_state_first_failing pod Hpod). unfold classify_first_failing.
    now rewrite (find_matching_failing _ _ Hfind Hfail), Hw. }
  rewrite H. unfold waiting_reason, field_or.
  split; [intros r Hr | intro Hr]; now rewrite Hr.
Qed.

Lemma pod_state_waiting_witness :
  pod_state (Examples.pod "web-2" "Pending"
               [Examples.cs_running "proxy"; Examples.cs_waiting "app" "ContainerCreating"])
  = Ok (Py.VStr "ContainerCreating", true).
Proof.
  apply (pod_state_waiting
           (Examples.pod "web-2" "Pending"
              [Examples.cs_running "proxy"; Examples.cs_waiting "app" "ContainerCreating"])
           (Examples.cs_waiting "app" "ContainerCreating"));
    reflexivity.
Defined.

(** X8: on a well-shaped pod whose first matching container status is
    terminated with a nonzero integer exit code, the label is the reason
    text, or [Exit] when there is no reason field, followed by the code in
    decimal between [(exit=] and [)], and the pod is problematic. *)
Theorem pod_state_exit_label (pod cs : Py.value) (z : Z) :
  pod_shaped pod = true ->
  find matching (statuses_of pod) = Some cs ->
  non_empty (waiting_of cs) = false ->
  field (terminated_of cs) "exitCode" = Some (Py.VInt z) ->
  z <> 0%Z ->
  (forall r : string,
      field (terminated_of cs) "reason" = Some (Py.VStr r) ->
      pod_state pod = Ok (Py.VStr (r ++ "(exit=" ++ Py.str_of_Z z ++ ")"), true)) /\
  (field (terminated_of cs) "reason" = None ->
   pod_state pod = Ok (Py.VStr ("Exit(exit=" ++ Py.str_of_Z z ++ ")"), true)).
Proof.
  intros Hpod Hfind Hw Hcode Hz.
  assert (Hexit : exit_code cs = Py.VInt z) by (unfold exit_code, field_or; now rewrite Hcode).
  assert (Hfail : failing cs = true).
  { pose proof (find_some _ _ Hfind) as [_ Hm]. unfold matching in Hm.
    unfold failing. rewrite Hw in *. simpl in *. rewrite Hm, Hexit. simpl.
    apply negb_true_iff. now apply Z.eqb_neq. }
  assert (H : pod_state pod = Ok (exit_label cs, true)).
  { rewrite (pod_state_first_failing pod Hpod). unfold classify_first_failing.
    now rewrite (find_matching_failing _ _ Hfind Hfail), Hw. }
  rewrite H. unfold exit_label. rewrite Hexit. unfold field_or.
  split; [intros r Hr | intro Hr]; now rewrite Hr.
Qed.

Lemma pod_state_exit_label_witness :
  pod_state (Examples.pod "job-9" "Failed" [Examples.cs_terminated "main" "OOMKilled" 137])
  = Ok (Py.VStr "OOMKilled(exit=137)", true).
Proof.
  refine (proj1 (pod_state_exit_label
                   (Examples.pod "job-9" "Failed"
                      [Examples.cs_terminated "main" "OOMKilled" 137])
                   (Examples.cs_terminated "main" "OOMKilled" 137) 137
                   eq_refl eq_refl eq_refl eq_refl _) "OOMKilled" eq_refl).
  discriminate.
Defined.

(** X9: a well-shaped pod is reported as healthy exactly when none of its
    container statuses is waiting or terminated with a nonzero exit code and
    its phase is [Running] or [Succeeded]. *)
Theorem pod_state_healthy_iff (pod : Py.value) :
  pod_shaped pod = true ->
  ((exists label : Py.value, pod_state pod = Ok (label, false))
   <-> find failing (statuses_of pod) = None /\
       (phase_of pod = Py.VStr "Running" \/ phase_of pod = Py.VStr "Succeeded")).
Proof.
  intro Hpod. rewrite (pod_state_first_failing pod Hpod).
  unfold classify_first_failing, by_phase.
  destruct (find failing (statuses_of pod)) as [cs|].
  - split.
    + intros (label & H). destruct (non_empty (waiting_of cs)); discriminate.
    + intros [H _]. discriminate.
  - split.
    + intros (label & H). injection H as _ Hbad. split; [reflexivity|].
      apply negb_false_iff, orb_true_iff in Hbad.
      destruct Hbad as [Hp|Hp]; [left | right]; now apply eq_str_true.
    + intros [_ [Hp|Hp]]; rewrite Hp; eexists; reflexivity.
Qed.

Lemma pod_state_healthy_iff_witness :
  exists label : Py.value, pod_state (Examples.pod_healthy "api-0") = Ok (label, false).
Proof.
  apply (proj2 (pod_state_healthy_iff (Examples.pod_healthy "api-0") eq_refl)).
  split; [reflexivity | now left].
Defined.

End PodMore.

Module ListingMore.
Import Config Cli Spec.

(** *** The tally *)

Lemma total_incr (counts : list (Py.value * nat)) (state : Py.value) :
  total (incr counts state) = S (total counts).
Proof.
  induction counts as [|[k n] counts IH]; [reflexivity|]. simpl.
  destruct (Py.key_eq k state); simpl; [reflexivity|]. rewrite IH. lia.
Qed.

Lemma count_loop_totals (pods : list Py.value) :
  forall (counts counts' : list (Py.value * nat)) (bad bad' : list Py.value),
    count_loop pods counts bad = Ok (counts', bad') ->
    total counts' = total counts + List.length pods /\
    bad' = (bad ++ filter problematic pods)%list.
Proof.
  induction pods as [|pod pods IH]; intros counts counts' bad bad' H.
  - injection H as <- <-. simpl. rewrite app_nil_r. split; [lia | reflexivity].
  - cbn [count_loop] in H. unfold problematic at 1. cbn [filter].
    destruct (pod_state pod) as [[label b]|e]; cbn [bind fst snd] in H; [|discriminate].
    destruct (Py.hashable label); cbn [negb] in H; [|discriminate].
    apply IH in H as [Ht Hb]. rewrite total_incr in Ht. split; [simpl; lia|].
    rewrite Hb. destruct b; [now rewrite <- app_assoc | reflexivity].
Qed.

(** X10: when the tally loop of [pods_impl] ends, the counts of the tally
    add up to the number of pods that passed the filter, and the problematic
    pods are those of them that [pod_state] calls problematic, in the same
    order. *)
Theorem count_loop_adds_up (pods : list Py.value) (counts : list (Py.value * nat))
        (bad_pods : list Py.value) :
  count_loop pods [] [] = Ok (counts, bad_pods) ->
  total counts = List.length pods /\
  bad_pods = filter problematic pods /\
  List.length bad_pods <= List.length pods.
Proof.
  intro H. apply count_loop_totals in H as [Ht Hb]. simpl in Ht, Hb.
  repeat split; [exact Ht | exact Hb |]. rewrite Hb. apply filter_length_le.
Qed.

Lemma count_loop_adds_up_witness :
  total [(Py.VStr "Error(exit=1)", 1); (Py.VStr "CrashLoopBackOff", 1); (Py.VStr "Running", 2)]
  = 4.
Proof.
  apply (count_loop_adds_up
           [Examples.pod_error_exit; Examples.pod_clean_exit_first;
            Examples.pod_healthy "a"; Examples.pod_healthy "b"]
           [(Py.VStr "Error(exit=1)", 1); (Py.VStr "CrashLoopBackOff", 1);
            (Py.VStr "Running", 2)]
           [Examples.pod_error_exit; Examples.pod_clean_exit_first]).
  reflexivity.
Defined.

(** [key_eq] compares the codes of two keys. *)
Lemma key_eq_code (a b : Py.value) :
  Py.key_eq a b = true <-> exists c : key_code, code a = Some c /\ code b = Some c.
Proof.
  destruct a as [|x|x|x|x|x], b as [|y|y|y|y|y]; simpl; split;
    try discriminate; try (intros (c & H1 & H2); congruence); intro H.
  - eauto.
  - apply Bool.eqb_prop in H. subst. eauto.
  - destruct H as (c & H1 & H2). injection H1 as <-. injection H2 as H2.
    destruct x, y; try reflexivity; discriminate.
  - apply Z.eqb_eq in H. subst. eauto.
  - destruct H as (c & H1 & H2). injection H1 as <-. injection H2 as H2.
    subst. apply Z.eqb_refl.
  - apply Z.eqb_eq in H. subst. eauto.
  - destruct H as (c & H1 & H2). injection H1 as <-. injection H2 as H2.
    subst. apply Z.eqb_refl.
  - apply Z.eqb_eq in H. subst. eauto.
  - destruct H as (c & H1 & H2). injection H1 as <-. injection H2 as H2.
    subst. apply Z.eqb_refl.
  - apply String.eqb_eq in H. subst. eauto.
  - destruct H as (c & H1 & H2). injection H1 as <-. injection H2 as H2.
    subst. apply String.eqb_refl.
Qed.

Lemma hashable_code (v : Py.value) :
  Py.hashable v = true <-> exists c : key_code, code v = Some c.
Proof.
  destruct v; simpl; split; intro H; eauto; try discriminate;
    destruct H as (c & H); discriminate.
Qed.

Lemma key_eq_refl (a : Py.value) : Py.hashable a = true -> Py.key_eq a a = true.
Proof.
  intro H. apply hashable_code in H as (c & H). apply key_eq_code. eauto.
Qed.

Lemma key_eq_sym (a b : Py.value) : Py.key_eq a b = Py.key_eq b a.
Proof.
  destruct (Py.key_eq a b) eqn:E1, (Py.key_eq b a) eqn:E2; try reflexivity.
  - apply key_eq_code in E1 as (c & H1 & H2).
    assert (H : Py.key_eq b a = true) by (apply key_eq_code; eauto). congruence.
  - apply key_eq_code in E2 as (c & H1 & H2).
    assert (H : Py.key_eq a b = true) by (apply key_eq_code; eauto). congruence.
Qed.

Lemma key_eq_trans (a b c : Py.value) :
  Py.key_eq a b = true -> Py.key_eq b c = true -> Py.key_eq a c = true.
Proof.
  intros H1 H2. apply key_eq_code in H1 as (x & Ha & Hb), H2 as (y & Hb' & Hc).
  apply key_eq_code. exists x. split; [exact Ha | congruence].
Qed.

Lemma incr_forall (Q : Py.value -> Prop) (counts : list (Py.value * nat)) (s : Py.value) :
  Forall (fun kn => Q (fst kn)) counts -> Q s ->
  Forall (fun kn => Q (fst kn)) (incr counts s).
Proof.
  intros H Hs. induction H as [|[k n] counts Hk H IH]; simpl.
  - repeat constructor. exact Hs.
  - destruct (Py.key_eq k s); constructor; auto.
Qed.

Lemma incr_distinct (counts : list (Py.value * nat)) (s : Py.value) :
  distinct_keys counts -> distinct_keys (incr counts s).
Proof.
  induction counts as [|[k n] counts IH]; simpl.
  - intros _. split; [constructor | exact I].
  - intros [Hk Hd]. destruct (Py.key_eq k s) eqn:E; simpl.
    + split; assumption.
    + split; [|now apply IH].
      now apply (incr_forall (fun x => Py.key_eq k x = false)).
Qed.

Lemma incr_in (counts : list (Py.value * nat)) (s : Py.value) :
  distinct_keys counts ->
  forall (k : Py.value) (n : nat),
    In (k, n) (incr counts s) ->
    (exists m : nat, In (k, m) counts /\ n = m + (if Py.key_eq k s then 1 else 0)) \/
    (Forall (fun kn => Py.key_eq (fst kn) s = false) counts /\ k = s /\ n = 1).
Proof.
  induction counts as [|[k0 n0] counts IH]; simpl; intros Hd k n Hin.
  - destruct Hin as [Hin|[]]. injection Hin as <- <-. right. auto.
  - destruct Hd as [Hk Hd]. destruct (Py.key_eq k0 s) eqn:E.
    + destruct Hin as [Hin|Hin].
      * injection Hin as <- <-. left. exists n0. rewrite E. split; [now left | lia].
      * left. exists n. split; [now right|].
        rewrite Forall_forall in Hk. specialize (Hk (k, n) Hin). simpl in Hk.
        destruct (Py.key_eq k s) eqn:Es; [|lia].
        rewrite (key_eq_trans k0 s k E) in Hk; [discriminate|].
        now rewrite key_eq_sym.
    + destruct Hin as [Hin|Hin].
      * injection Hin as <- <-. left. exists n0. rewrite E. split; [now left | lia].
      * destruct (IH Hd k n Hin) as [(m & Hm & Hn)|(Hf & -> & ->)].
        -- left. exists m. split; [now right | exact Hn].
        -- right. repeat split. constructor; assumption.
Qed.

Lemma incr_keeps_keys (counts : list (Py.value * nat)) (s k : Py.value) (m : nat) :
  In (k, m) counts -> exists n : nat, In (k, n) (incr counts s).
Proof.
  induction counts as [|[k0 n0] counts IH]; simpl; [tauto|].
  intros [Hin|Hin].
  - injection Hin as <- <-. destruct (Py.key_eq k0 s); eexists; left; reflexivity.
  - destruct (Py.key_eq k0 s).
    + exists m. now right.
    + destruct (IH Hin) as (n & Hn). exists n. now right.
Qed.

Lemma incr_has_key (counts : list (Py.value * nat)) (s : Py.value) :
  Py.hashable s = true ->
  exists (k : Py.value) (n : nat), In (k, n) (incr counts s) /\ Py.key_eq k s = true.
Proof.
  intro Hs. induction counts as [|[k0 n0] counts IH]; simpl.
  - exists s, 1. split; [now left | now apply key_eq_refl].
  - destruct (Py.key_eq k0 s) eqn:E.
    + exists k0, (S n0). split; [now left | exact E].
    + destruct IH as (k & n & Hin & Hk). exists k, n. split; [now right | exact Hk].
Qed.

Lemma occurrences_snoc (k pod : Py.value) (seen : list Py.value) :
  occurrences k (seen ++ [pod])%list
  = occurrences k seen + (if labelled k pod then 1 else 0).
Proof.
  unfold occurrences. rewrite filter_app, length_app. simpl.
  now destruct (labelled k pod).
Qed.

Lemma occurrences_none (k : Py.value) (seen : list Py.value) :
  (forall pod : Py.value, In pod seen -> labelled k pod = false) ->
  occurrences k seen = 0.
Proof.
  unfold occurrences. induction seen as [|pod seen IH]; [reflexivity|].
  intro H. simpl. rewrite (H pod (or_introl eq_refl)). apply IH.
  intros p Hp. apply H. now right.
Qed.

(** One iteration keeps the tally exact. *)
Lemma tallied_step (counts : list (Py.value * nat)) (seen : list Py.value)
      (pod s : Py.value) (b : bool) :
  tallied counts seen -> pod_state pod = Ok (s, b) -> Py.hashable s = true ->
  tallied (incr counts s) (seen ++ [pod])%list.
Proof.
  intros (Hd & Hcount & Hseen) Hpod Hs.
  assert (Hlab : forall k : Py.value, labelled k pod = Py.key_eq k s)
    by (intro k; unfold labelled; now rewrite Hpod).
  split; [now apply incr_distinct|]. split.
  - intros k n Hin. rewrite occurrences_snoc, Hlab.
    destruct (incr_in counts s Hd k n Hin) as [(m & Hm & ->)|(Hfresh & -> & ->)].
    + destruct (Hcount k m Hm) as (Hk & -> & Hpos). repeat split; [exact Hk | lia].
    + rewrite (key_eq_refl s Hs). repeat split; [exact Hs | | lia].
      rewrite occurrences_none; [reflexivity|].
      intros p Hp. destruct (Hseen p Hp) as (k & n & Hin' & Hk).
      rewrite Forall_forall in Hfresh. specialize (Hfresh (k, n) Hin'). simpl in Hfresh.
      unfold labelled in *. destruct (pod_state p) as [[lab bad]|e]; [|reflexivity].
      destruct (Py.key_eq s lab) eqn:E; [|reflexivity].
      rewrite (key_eq_trans k lab s Hk) in Hfresh; [discriminate|].
      now rewrite key_eq_sym.
  - intros p Hp. apply in_app_or in Hp as [Hp|[<-|[]]].
    + destruct (Hseen p Hp) as (k & n & Hin & Hk).
      destruct (incr_keeps_keys counts s k n Hin) as (n' & Hn'). eauto.
    + destruct (incr_has_key counts s Hs) as (k & n & Hin & Hk).
      exists k, n. split; [exact Hin | now rewrite Hlab].
Qed.

Lemma count_loop_tallied (pods : list Py.value) :
  forall (seen : list Py.value) (counts counts' : list (Py.value * nat))
         (bad bad' : list Py.value),
    tallied counts seen ->
    count_loop pods counts bad = Ok (counts', bad') ->
    tallied counts' (seen ++ pods)%list.
Proof.
  induction pods as [|pod pods IH]; intros seen counts counts' bad bad' Ht H.
  - injection H as <- <-. now rewrite app_nil_r.
  - cbn [count_loop] in H.
    destruct (pod_state pod) as [[label b]|e] eqn:Hpod; cbn [bind fst snd] in H;
      [|discriminate].
    destruct (Py.hashable label) eqn:Hh; cbn [negb] in H; [|discriminate].
    replace (seen ++ pod :: pods)%list with ((seen ++ [pod]) ++ pods)%list
      by now rewrite <- app_assoc.
    apply (IH _ _ _ _ _ (tallied_step counts seen pod label b Ht Hpod Hh) H).
Qed.

(** X11: the tally of [pods_impl] is exact: when its loop ends, no two keys
    of the tally are equal, each key is counted once per pod whose label
    equals it (and at least once), and the label of every pod is one of the
    keys. *)
Theorem count_loop_exact (pods : list Py.value) (counts : list (Py.value * nat))
        (bad_pods : list Py.value) :
  count_loop pods [] [] = Ok (counts, bad_pods) ->
  distinct_keys counts /\
  (forall (k : Py.value) (n : nat),
      In (k, n) counts -> n = occurrences k pods /\ 1 <= n) /\
  (forall pod : Py.value,
      In pod pods ->
      exists (k : Py.value) (n : nat), In (k, n) counts /\ labelled k pod = true).
Proof.
  intro H.
  assert (H0 : tallied [] []).
  { split; [exact I|]. split; [intros k n []|intros pod []]. }
  destruct (count_loop_tallied pods [] [] counts [] bad_pods H0 H) as (Hd & Hc & Hs).
  simpl in Hc, Hs. repeat split; try assumption; now destruct (Hc k n H1).
Qed.

Lemma count_loop_exact_witness :
  2 = occurrences (Py.VStr "Running")
        [Examples.pod_healthy "a"; Examples.pod_error_exit; Examples.pod_healthy "b"] /\
  1 <= 2.
Proof.
  destruct (count_loop_exact
              [Examples.pod_healthy "a"; Examples.pod_error_exit; Examples.pod_healthy "b"]
              [(Py.VStr "Running", 2); (Py.VStr "Error(exit=1)", 1)]
              [Examples.pod_error_exit] eq_refl) as (_ & H & _).
  apply (H (Py.VStr "Running") 2). now left.
Defined.

(** *** The table *)

Lemma add_row_ok (w : world) (cells row : list Py.value) :
  add_row w cells = Ok row -> row = cells.
Proof.
  revert row. induction cells as [|c cells IH]; intros row H; simpl in H.
  - now injection H.
  - destruct (renderable w c); [|discriminate].
    destruct (add_row w cells) as [r|e]; [|discriminate].
    simpl in H. injection H as <-. now rewrite (IH r eq_refl).
Qed.

Lemma rows_loop_rows (w : world) (show : list Py.value) :
  forall rows : list (list Py.value),
    rows_loop w show = Ok rows -> Forall2 row_of show rows.
Proof.
  induction show as [|pod show IH]; intros rows H.
  - injection H as <-. constructor.
  - cbn [rows_loop] in H.
    destruct (name_of pod) as [name|e] eqn:Hname; cbn [bind] in H; [|discriminate].
    destruct (pod_state pod) as [[label bad]|e] eqn:Hpod; cbn [bind fst snd] in H;
      [|discriminate].
    destruct (add_row w _) as [row|e] eqn:Hrow; cbn [bind] in H; [|discriminate].
    destruct (rows_loop w show) as [rows'|e]; cbn [bind] in H; [|discriminate].
    injection H as <-. constructor; [|now apply IH].
    exists name, label, bad.
    split; [exact Hname | split; [exact Hpod | now apply (add_row_ok w)]].
Qed.

(** What a normal end of [pods_impl] went through. *)
Lemma pods_impl_ok (w : world) (service namespace search : option string)
      (summary bad_only show_command : bool) (out : list output) :
  pods_impl w service namespace search summary bad_only show_command = (out, Ok tt) ->
  exists (filtered : list Py.value) (counts : list (Py.value * nat))
         (bad_pods : list Py.value) (rows : list (list Py.value)),
    filtered_pods w (resolve_namespace w namespace) (resolve_service w service) search
    = Ok filtered /\
    filtered <> [] /\
    count_loop filtered [] [] = Ok (counts, bad_pods) /\
    rows_loop w (if bad_only then bad_pods else filtered) = Ok rows /\
    table_rows out = rows.
Proof.
  unfold pods_impl. intro H.
  destruct (filtered_pods w _ _ search) as [[|pod filtered]|e]; try discriminate.
  destruct (count_loop (pod :: filtered) [] []) as [[counts bad_pods]|e] eqn:Hcount;
    cbn [bind snd] in H; [|discriminate].
  destruct (rows_loop w _) as [rows|e] eqn:Hrows; cbn [bind] in H; [|discriminate].
  injection H as <-. exists (pod :: filtered), counts, bad_pods, rows.
  repeat split; try assumption; [discriminate|].
  unfold table_rows, running_line, summary_lines.
  destruct show_command, summary; simpl; now rewrite app_nil_r.
Qed.

(** X12: when [pods_impl] returns normally, the table it printed has one
    row for each pod that passed the filter (for each problematic one of
    them, with the bad-only flag), in the order of the query, and the row
    holds the pod's name, the label of [pod_state], and [YES] or nothing. *)
Theorem pods_impl_rows (w : world) (service namespace search : option string)
        (summary bad_only show_command : bool) (out : list output) :
  pods_impl w service namespace search summary bad_only show_command = (out, Ok tt) ->
  exists filtered : list Py.value,
    filtered_pods w (resolve_namespace w namespace) (resolve_service w service) search
    = Ok filtered /\
    filtered <> [] /\
    Forall2 row_of (if bad_only then filter problematic filtered else filtered)
            (table_rows out).
Proof.
  intro H. apply pods_impl_ok in H as (filtered & counts & bad & rows & Hf & Hne & Hc & Hr & ->).
  exists filtered. repeat split; [exact Hf | exact Hne |].
  apply count_loop_totals in Hc as [_ Hb]. simpl in Hb. rewrite <- Hb.
  now apply (rows_loop_rows w).
Qed.

Lemma pods_impl_rows_witness :
  exists filtered : list Py.value,
    filtered_pods Examples.world_no_config "default" None None = Ok filtered /\
    filtered <> [] /\
    Forall2 row_of filtered
            [[Py.VStr "web-1"; Py.VStr "Error(exit=1)"; Py.VStr "YES"];
             [Py.VStr "batch-7"; Py.VStr "CrashLoopBackOff"; Py.VStr "YES"]].
Proof.
  apply (pods_impl_rows Examples.world_no_config None None None false false false
           [PrintTable "Pods in default" ["Pod"; "State"; "Bad"]
                       [[Py.VStr "web-1"; Py.VStr "Error(exit=1)"; Py.VStr "YES"];
                        [Py.VStr "batch-7"; Py.VStr "CrashLoopBackOff"; Py.VStr "YES"]]]).
  reflexivity.
Defined.

(** X13: with the bad-only flag, every row of the table says [YES]: only
    pods that [pod_state] calls problematic are shown. *)
Theorem pods_impl_bad_only (w : world) (service namespace search : option string)
        (summary show_command : bool) (out : list output) :
  pods_impl w service namespace search summary true show_command = (out, Ok tt) ->
  Forall (fun row => nth_error row 2 = Some (Py.VStr "YES")) (table_rows out).
Proof.
  intro H. apply pods_impl_ok in H as (filtered & counts & bad & rows & _ & _ & Hc & Hr & ->).
  apply count_loop_totals in Hc as [_ Hb]. simpl in Hb.
  apply rows_loop_rows in Hr.
  assert (Hbad : Forall (fun pod => problematic pod = true) bad).
  { rewrite Hb. apply Forall_forall. intros pod Hin. now apply filter_In in Hin. }
  clear Hb. induction Hr as [|pod row bad rows (name & label & b & _ & Hpod & ->) _ IH];
    [constructor|].
  inversion Hbad as [|? ? Hp Hrest]; subst. constructor; [|now apply IH].
  unfold problematic in Hp. rewrite Hpod in Hp. now destruct b.
Qed.

Lemma pods_impl_bad_only_witness :
  Forall (fun row => nth_error row 2 = Some (Py.VStr "YES"))
         [[Py.VStr "web-1"; Py.VStr "Error(exit=1)"; Py.VStr "YES"];
          [Py.VStr "batch-7"; Py.VStr "CrashLoopBackOff"; Py.VStr "YES"]].
Proof.
  apply (pods_impl_bad_only Examples.world_no_config None None None false false
           [PrintTable "Pods in default" ["Pod"; "State"; "Bad"]
                       [[Py.VStr "web-1"; Py.VStr "Error(exit=1)"; Py.VStr "YES"];
                        [Py.VStr "batch-7"; Py.VStr "CrashLoopBackOff"; Py.VStr "YES"]]]).
  reflexivity.
Defined.




(** *** The query *)




(** *** The filter *)

Lemma filter_loop_app_eq (w : world) (svc search : option string)
      (items more : list Py.value) :
  filter_loop w svc search (items ++ more)%list
  = (f1 <- filter_loop w svc search items ;;
     f2 <- filter_loop w svc search more ;;
     Ok (f1 ++ f2)%list).
Proof.
  induction items as [|pod items IH].
  - simpl. now destruct (filter_loop w svc search more).
  - cbn [app filter_loop]. rewrite IH.
    destruct (name_of pod) as [name|e]; cbn [bind]; [|reflexivity].
    destruct (match svc with Some s => _ | None => _ end) as [[|]|e]; cbn [bind];
      try reflexivity.
    destruct (match search with Some p => _ | None => _ end) as [[|]|e]; cbn [bind];
      try reflexivity.
    destruct (filter_loop w svc search items) as [f1|e]; cbn [bind]; [|reflexivity].
    now destruct (filter_loop w svc search more).
Qed.

(** X17: the filter judges each pod on its own and keeps the order: on two
    lists put end to end it gives its result on the first followed by its
    result on the second, and fails as soon as it fails on one of them. *)
Theorem filter_loop_app (w : world) (svc search : option string)
        (items more : list Py.value) :
  filter_loop w svc search (items ++ more)%list
  = (f1 <- filter_loop w svc search items ;;
     f2 <- filter_loop w svc search more ;;
     Ok (f1 ++ f2)%list).
Proof. exact (filter_loop_app_eq w svc search items more). Qed.

(** X18: filtering twice changes nothing: the list the filter returns
    passes the same filter whole. *)
Theorem filter_loop_idempotent (w : world) (svc search : option string)
        (items filtered : list Py.value) :
  filter_loop w svc search items = Ok filtered ->
  filter_loop w svc search filtered = Ok filtered.
Proof.
  revert filtered. induction items as [|pod items IH]; intros filtered H.
  - now injection H as <-.
  - cbn [filter_loop] in H.
    destruct (name_of pod) as [name|e] eqn:Hname; cbn [bind] in H; [|discriminate].
    destruct (match svc with Some s => _ | None => _ end) as [[|]|e] eqn:Hsvc;
      cbn [bind] in H; try discriminate; [now apply IH|].
    destruct (match search with Some p => _ | None => _ end) as [[|]|e] eqn:Hsearch;
      cbn [bind] in H; try discriminate; [now apply IH|].
    destruct (filter_loop w svc search items) as [f|e]; cbn [bind] in H; [|discriminate].
    injection H as <-. cbn [filter_loop]. rewrite Hname. cbn [bind].
    rewrite Hsvc. cbn [bind]. rewrite Hsearch. cbn [bind].
    now rewrite (IH f eq_refl).
Qed.

Lemma filter_loop_idempotent_witness :
  filter_loop Examples.world_no_config (Some "web") None [Examples.pod_error_exit]
  = Ok [Examples.pod_error_exit].
Proof.
  apply (filter_loop_idempotent Examples.world_no_config (Some "web") None
           [Examples.pod_error_exit; Examples.pod_clean_exit_first]).
  reflexivity.
Defined.

(** X19: one pod record without a name stops the listing: when the filter
    gets through the pods before it, it raises what reading the name raises
    ([KeyError] for a missing [metadata] or [name] key), even when no filter
    was asked for and whatever pods come after. *)
Theorem filter_loop_nameless (w : world) (svc search : option string)
        (before after kept : list Py.value) (pod : Py.value) (e : exn) :
  filter_loop w svc search before = Ok kept ->
  name_of pod = Raise e ->
  filter_loop w svc search (before ++ pod :: after)%list = Raise e /\
  (forall d : Py.dict, pod = Py.VDict d -> Py.lookup "metadata" d = None ->
                       e = KeyError "metadata") /\
  (forall d m : Py.dict, pod = Py.VDict d -> Py.lookup "metadata" d = Some (Py.VDict m) ->
                         Py.lookup "name" m = None -> e = KeyError "name").
Proof.
  intros Hbefore Hname. split; [|split].
  - rewrite filter_loop_app_eq, Hbefore. cbn [bind filter_loop]. now rewrite Hname.
  - intros d -> Hd. unfold name_of in Hname. simpl in Hname. rewrite Hd in Hname.
    simpl in Hname. now injection Hname.
  - intros d m -> Hd Hm. unfold name_of in Hname. simpl in Hname. rewrite Hd in Hname.
    simpl in Hname. rewrite Hm in Hname. now injection Hname.
Qed.

Lemma filter_loop_nameless_witness :
  filter_loop Examples.world_no_config None None
              ([Examples.pod_error_exit]
               ++ Py.VDict [("status", Py.VDict [("phase", Py.VStr "Running")])]
               :: [Examples.pod_clean_exit_first])%list
  = Raise (KeyError "metadata").
Proof.
  apply (filter_loop_nameless Examples.world_no_config None None
           [Examples.pod_error_exit] [Examples.pod_clean_exit_first]
           [Examples.pod_error_exit]
           (Py.VDict [("status", Py.VDict [("phase", Py.VStr "Running")])])
           (KeyError "metadata"));
    reflexivity.
Defined.

(** X20: a search pattern that does not compile is only found out when a
    pod gets to the search test: on named pods the filter raises [re.error]
    if some pod passes the service test, and otherwise returns no pod (so
    that [pods_impl] reports that no pods matched). *)
Theorem filter_loop_bad_pattern (w : world) (svc : option string) (p : string)
        (items : list Py.value) :
  p <> "" -> re_compiles w p = false -> Forall named items ->
  filter_loop w svc (Some p) items
  = if existsb (passes_service svc) items then Raise ReError else Ok [].
Proof.
  intros Hp Hre Hnamed. apply String.eqb_neq in Hp.
  induction Hnamed as [|pod items (n & Hn) _ IH]; [reflexivity|].
  cbn [filter_loop existsb]. unfold passes_service at 1. rewrite Hn. cbn [bind].
  unfold given. destruct svc as [s|]; cbn [from_option].
  - destruct (s =? "")%string; cbn [negb implb bind].
    + rewrite Hp. cbn [negb]. unfold re_search. now rewrite Hre.
    + cbn [Py.str_in bind]. destruct (Py.contains s n); cbn [negb orb].
      * rewrite Hp. cbn [negb]. unfold re_search. now rewrite Hre.
      * exact IH.
  - cbn [implb bind]. rewrite Hp. cbn [negb]. unfold re_search. now rewrite Hre.
Qed.

Lemma filter_loop_bad_pattern_witness :
  filter_loop (Examples.world_rejects "(") (Some "db") (Some "(")
              [Examples.pod_error_exit; Examples.pod_clean_exit_first]
  = Ok [] /\
  filter_loop (Examples.world_rejects "(") (Some "web") (Some "(")
              [Examples.pod_error_exit; Examples.pod_clean_exit_first]
  = Raise ReError.
Proof.
  split.
  - apply (filter_loop_bad_pattern (Examples.world_rejects "(") (Some "db") "("
             [Examples.pod_error_exit; Examples.pod_clean_exit_first]).
    + discriminate.
    + reflexivity.
    + repeat constructor; eexists; reflexivity.
  - apply (filter_loop_bad_pattern (Examples.world_rejects "(") (Some "web") "("
             [Examples.pod_error_exit; Examples.pod_clean_exit_first]).
    + discriminate.
    + reflexivity.
    + repeat constructor; eexists; reflexivity.
Defined.

Lemma prefix_app (s t : string) :
  prefix s t = true <-> exists post : string, t = s ++ post.
Proof.
  revert t. induction s as [|a s IH]; intro t.
  - split; [intros _; now exists t | now destruct t].
  - destruct t as [|b t]; simpl.
    + split; [discriminate | intros (post & H); discriminate].
    + destruct (ascii_dec a b) as [->|Hab].
      * rewrite IH. split; intros (post & H); exists post; [now rewrite H | now injection H].
      * split; [discriminate | intros (post & H); injection H as H _; now elim Hab].
Qed.

Lemma contains_app (s t : string) :
  Py.contains s t = true <-> exists pre post : string, t = pre ++ s ++ post.
Proof.
  induction t as [|b t IH]; cbn [Py.contains].
  - rewrite orb_false_r, prefix_app. split.
    + intros (post & H). now exists "", post.
    + intros (pre & post & H). destruct pre; [now exists post | discriminate].
  - rewrite orb_true_iff, prefix_app, IH. split.
    + intros [(post & H)|(pre & post & H)].
      * now exists "", post.
      * exists (String b pre), post. simpl. now rewrite H.
    + intros (pre & post & H). destruct pre as [|c pre].
      * left. now exists post.
      * right. injection H as _ H. now exists pre, post.
Qed.

(** X25: the service test of the filter is a substring test: with a
    non-empty service substring and no search pattern, a named pod is kept
    exactly when its name is some text, then the substring, then some text;
    otherwise it is dropped, without error. *)
Theorem filter_loop_substring (w : world) (s n : string) (pod : Py.value) :
  s <> "" -> name_of pod = Ok (Py.VStr n) ->
  (filter_loop w (Some s) None [pod] = Ok [pod]
   <-> exists pre post : string, n = pre ++ s ++ post) /\
  (filter_loop w (Some s) None [pod] = Ok []
   <-> ~ exists pre post : string, n = pre ++ s ++ post).
Proof.
  intros Hs Hn. apply String.eqb_neq in Hs. rewrite <- contains_app.
  cbn [filter_loop]. rewrite Hn. cbn [bind]. rewrite Hs. cbn [negb Py.str_in bind].
  destruct (Py.contains s n); cbn [negb bind]; split; split; intro H;
    try reflexivity; try discriminate; try congruence.
Qed.

Lemma filter_loop_substring_witness :
  exists pre post : string, "my-web-1" = pre ++ "web" ++ post.
Proof.
  refine (proj1 (proj1 (filter_loop_substring Examples.world_no_config "web" "my-web-1"
                          (Examples.pod_healthy "my-web-1") _ eq_refl)) eq_refl).
  discriminate.
Defined.

(** *** The summary *)

(** X26: with the summary flag, a normal end of [pods_impl] prints the
    table and then the two summary lines, last; the counts of the first
    line are an exact tally of the labels of the pods that passed the
    filter and add up to the total of the second line, whose problematic
    count is the number of those pods that [pod_state] calls problematic. *)
Theorem pods_impl_summary (w : world) (service namespace search : option string)
        (bad_only show_command : bool) (out : list output) :
  pods_impl w service namespace search true bad_only show_command = (out, Ok tt) ->
  exists (filtered : list Py.value) (counts : list (Py.value * nat))
         (rows : list (list Py.value)),
    filtered_pods w (resolve_namespace w namespace) (resolve_service w service) search
    = Ok filtered /\
    out = (running_line show_command (resolve_namespace w namespace)
           ++ [PrintTable ("Pods in " ++ resolve_namespace w namespace)
                          ["Pod"; "State"; "Bad"] rows]
           ++ summary_lines counts (List.length filtered)
                            (List.length (filter problematic filtered)))%list /\
    total counts = List.length filtered /\
    tallied counts filtered.
Proof.
  unfold pods_impl. intro H.
  destruct (filtered_pods w _ _ search) as [[|pod filtered]|e]; try discriminate.
  destruct (count_loop (pod :: filtered) [] []) as [[counts bad_pods]|e] eqn:Hcount;
    cbn [bind snd] in H; [|discriminate].
  destruct (rows_loop w _) as [rows|e] eqn:Hrows; cbn [bind] in H; [|discriminate].
  injection H as <-. exists (pod :: filtered), counts, rows.
  destruct (count_loop_totals _ _ _ _ _ Hcount) as [Ht Hb]. simpl in Ht, Hb.
  split; [reflexivity|]. split; [now rewrite Hb|]. split; [exact Ht|].
  assert (H0 : tallied [] []).
  { split; [exact I|]. split; [intros k n []|intros p []]. }
  exact (count_loop_tallied _ [] [] counts [] bad_pods H0 Hcount).
Qed.

Lemma pods_impl_summary_witness :
  exists (filtered : list Py.value) (counts : list (Py.value * nat))
         (rows : list (list Py.value)),
    filtered_pods Examples.world_healthy "default" None None = Ok filtered /\
    [PrintTable "Pods in default" ["Pod"; "State"; "Bad"]
                [[Py.VStr "api-0"; Py.VStr "Running"; Py.VStr ""];
                 [Py.VStr "api-1"; Py.VStr "Running"; Py.VStr ""]];
     Print "[bold]Summary:[/bold] Running=2";
     Print "[bold]Total:[/bold] 2  [bold]Problematic:[/bold] 0"]
    = ([] ++ [PrintTable "Pods in default" ["Pod"; "State"; "Bad"] rows]
          ++ summary_lines counts (List.length filtered)
                           (List.length (filter problematic filtered)))%list /\
    total counts = List.length filtered /\
    tallied counts filtered.
Proof.
  apply (pods_impl_summary Examples.world_healthy None None None false false).
  reflexivity.
Defined.

End ListingMore.

Module KubeMore.
Import Config Cli Spec.

Lemma lstrip_first (s : string) (c : ascii) :
  first_char (Kube.lstrip s) = Some c -> Kube.isspace c = false.
Proof.
  induction s as [|a s IH]; simpl; [discriminate|].
  destruct (Kube.isspace a) eqn:Ea; [exact IH|]. simpl. intro H. now injection H as <-.
Qed.

Lemma rstrip_last (s : string) (c : ascii) :
  last_char (Kube.rstrip s) = Some c -> Kube.isspace c = false.
Proof.
  induction s as [|a s IH]; simpl; [discriminate|].
  destruct (Kube.rstrip s) as [|b r] eqn:Er.
  - destruct (Kube.isspace a) eqn:Ea; simpl; [discriminate|]. intro H. now injection H as <-.
  - exact IH.
Qed.

Lemma rstrip_first (s : string) (c : ascii) :
  first_char (Kube.rstrip s) = Some c -> first_char s = Some c.
Proof.
  destruct s as [|a s]; simpl; [discriminate|].
  destruct (Kube.rstrip s); [destruct (Kube.isspace a); [discriminate|]|]; auto.
Qed.

Lemma strip_trimmed (s : string) : trimmed (Kube.strip s).
Proof.
  unfold trimmed, Kube.strip. split; intros c H.
  - apply (lstrip_first s). now apply rstrip_first.
  - now apply (rstrip_last (Kube.lstrip s)).
Qed.

Lemma lstrip_id (t : string) :
  (forall c : ascii, first_char t = Some c -> Kube.isspace c = false) -> Kube.lstrip t = t.
Proof.
  destruct t as [|a t]; [reflexivity|]. simpl. intro H. now rewrite (H a eq_refl).
Qed.

Lemma rstrip_id (t : string) :
  (forall c : ascii, last_char t = Some c -> Kube.isspace c = false) -> Kube.rstrip t = t.
Proof.
  induction t as [|a t IH]; [reflexivity|]. intro H. simpl.
  destruct t as [|b t].
  - simpl. now rewrite (H a eq_refl).
  - rewrite IH; [reflexivity|]. intros c Hc. apply H. exact Hc.
Qed.

Lemma strip_idempotent (s : string) : Kube.strip (Kube.strip s) = Kube.strip s.
Proof.
  destruct (strip_trimmed s) as [Hf Hl]. unfold Kube.strip at 1.
  now rewrite (lstrip_id _ Hf), (rstrip_id _ Hl).
Qed.

(** X21: [run_kubectl] returns the command's output as it is when the
    command ends with status zero; with any other status it raises
    [KubectlError] with the command's error text trimmed: the message
    neither starts nor ends with white space, and stripping it again changes
    nothing. *)
Theorem run_kubectl_outcome (run : list string -> Kube.completed_process)
        (args : list string) :
  (Kube.returncode (run ("kubectl" :: args)) = 0%Z ->
   Kube.run_kubectl run args = Ok (Kube.stdout (run ("kubectl" :: args)))) /\
  (Kube.returncode (run ("kubectl" :: args)) <> 0%Z ->
   exists msg : string,
     Kube.run_kubectl run args = Raise (KubectlError msg) /\
     msg = Kube.strip (Kube.stderr (run ("kubectl" :: args))) /\
     trimmed msg /\ Kube.strip msg = msg).
Proof.
  unfold Kube.run_kubectl. split; intro H.
  - now rewrite H.
  - apply Z.eqb_neq in H. rewrite H. simpl. eexists. split; [reflexivity|].
    split; [reflexivity|]. split; [apply strip_trimmed | apply strip_idempotent].
Qed.

Lemma run_kubectl_outcome_witness :
  exists msg : string,
    Kube.run_kubectl (subprocess_run Examples.world_kubectl_fails) ["get"; "pods"]
    = Raise (KubectlError msg) /\
    msg = "error: connection refused".
Proof.
  destruct (proj2 (run_kubectl_outcome (subprocess_run Examples.world_kubectl_fails)
                                       ["get"; "pods"]))
    as (msg & Hrun & Hmsg & _).
  - discriminate.
  - exists msg. split; [exact Hrun | exact Hmsg].
Defined.

End KubeMore.

Module EntryMore.
Import Config Cli Spec.

(** *** Aliases *)

Lemma get_unbound (d : list (string * string)) (k default : string) :
  (forall v : string, ~ In (k, v) d) -> Config.get d k default = default.
Proof.
  induction d as [|[k' v'] d IH]; [reflexivity|]. simpl. intro H.
  destruct (String.eqb_spec k' k) as [->|_].
  - elim (H v'). now left.
  - apply IH. intros v Hv. apply (H v). now right.
Qed.

Lemma get_bound (before after : list (string * string)) (k v default : string) :
  (forall v' : string, ~ In (k, v') before) ->
  Config.get (before ++ (k, v) :: after)%list k default = v.
Proof.
  induction before as [|[k' v'] before IH]; simpl; intro H.
  - now rewrite String.eqb_refl.
  - destruct (String.eqb_spec k' k) as [->|_].
    + elim (H v'). now left.
    + apply IH. intros v0 Hv. apply (H v0). now right.
Qed.

(** X22: whatever the configuration, a non-empty service tag that is no key
    of the service aliases resolves to itself, and one that is a key
    resolves to the value of its first binding; no tag and the empty tag
    are the only ones that resolve to nothing. *)
Theorem resolve_service_alias (w : world) (tag : string) :
  tag <> "" ->
  ((forall v : string, ~ In (tag, v) (services (load_config (config_file w)))) ->
   resolve_service w (Some tag) = Some tag) /\
  (forall (before after : list (string * string)) (v : string),
      services (load_config (config_file w)) = (before ++ (tag, v) :: after)%list ->
      (forall v' : string, ~ In (tag, v') before) ->
      resolve_service w (Some tag) = Some v) /\
  (forall t : option string, resolve_service w t = None <-> given t = false).
Proof.
  intro Htag. apply String.eqb_neq in Htag. split; [|split].
  - intro H. unfold resolve_service. rewrite Htag. now rewrite get_unbound.
  - intros before after v Hs H. unfold resolve_service. rewrite Htag, Hs.
    now rewrite get_bound.
  - intros [t|]; unfold resolve_service, given; [|tauto].
    destruct (t =? "")%string; simpl; split; intro H; try reflexivity; discriminate.
Qed.

Lemma resolve_service_alias_witness :
  resolve_service Examples.world_config (Some "db") = Some "postgres" /\
  resolve_service Examples.world_config (Some "cache") = Some "cache".
Proof.
  split.
  - refine (proj1 (proj2 (resolve_service_alias Examples.world_config "db" _))
                  [("web", "web-frontend")] [] "postgres" eq_refl _).
    + discriminate.
    + intros v' [H|[]]. discriminate.
  - refine (proj1 (resolve_service_alias Examples.world_config "cache" _) _).
    + discriminate.
    + intros v [H|[H|[]]]; discriminate.
Defined.

(** *** Entry points *)

(** X23: the three entry points agree: the wrapper is the callback, and the
    [pods] command, which strips a leading [pods] before the parser strips
    one too, gives what the callback gives on every command line that does
    not start with [pods] twice; on [k pods ...] it is the callback on the
    line without that [pods]. *)
Theorem pods_cmd_is_main (w : world) (sys_argv : list string) :
  main_wrapper w sys_argv = main w sys_argv /\
  ((forall t : list string,
       argv_args sys_argv = "pods" :: t -> hd_error t <> Some "pods") ->
   pods_cmd w sys_argv = main w sys_argv) /\
  (forall (prog : string) (rest : list string),
      sys_argv = prog :: "pods" :: rest ->
      pods_cmd w sys_argv = main w (prog :: rest)).
Proof.
  split; [reflexivity|]. split.
  - intro H. unfold pods_cmd, main, main_impl.
    destruct (argv_args sys_argv) as [|a t] eqn:Hargs; [reflexivity|]. simpl.
    destruct (String.eqb_spec a "pods") as [->|_]; [|reflexivity].
    now rewrite (ParserProps.parse_args_strip_pods_eq t (H t eq_refl)).
  - intros prog rest ->. unfold pods_cmd, main, argv_args. simpl.
    now destruct rest.
Qed.

Lemma pods_cmd_is_main_witness :
  pods_cmd Examples.world_no_config ["k"; "pods"; "web"; "--summary"]
  = main Examples.world_no_config ["k"; "pods"; "web"; "--summary"].
Proof.
  apply (proj1 (proj2 (pods_cmd_is_main Examples.world_no_config
                                        ["k"; "pods"; "web"; "--summary"]))).
  intros t H. injection H as <-. discriminate.
Defined.



End EntryMore.
